(** * devp2p/crypto.py: ECIES, concatenation KDF and the signature codec

    A shallow embedding of [devp2p/crypto.py].  Byte strings are lists of
    [byte]; Python integers are [Z]; exceptions are an explicit [outcome]
    type; the services of the curve, cipher and hash libraries are the
    fields of a class, with their laws stated separately. *)

From Stdlib Require Import String List ZArith Lia Bool.
From Stdlib Require Import Strings.Byte.
Import ListNotations.
Local Open Scope Z_scope.

(** ** Byte strings and the Python operations on them *)

Definition bytes := list byte.

Definition bytes_eq_dec : forall a b : bytes, {a = b} + {a <> b} :=
  list_eq_dec Byte.byte_eq_dec.

Definition bytes_eqb (a b : bytes) : bool :=
  if bytes_eq_dec a b then true else false.

(** [len(x)] *)
Definition len {A} (l : list A) : Z := Z.of_nat (length l).

(** Clamping of one slice bound, as Python does it for a step of 1. *)
Definition clamp (n i : Z) : Z :=
  if i <? 0 then Z.max 0 (n + i) else Z.min i n.

(** [l[start:stop]]; [None] is an omitted bound. *)
Definition slice {A} (start stop : option Z) (l : list A) : list A :=
  let n := len l in
  let lo := match start with None => 0 | Some i => clamp n i end in
  let hi := match stop with None => n | Some j => clamp n j end in
  firstn (Z.to_nat (hi - lo)) (skipn (Z.to_nat lo) l).

(** [l[i:j]], [l[i:]] and [l[:j]] *)
Definition sl {A} (l : list A) (i j : Z) : list A := slice (Some i) (Some j) l.
Definition sl_from {A} (l : list A) (i : Z) : list A := slice (Some i) None l.
Definition sl_to {A} (l : list A) (j : Z) : list A := slice None (Some j) l.

(** ** Exceptions and outcomes *)

Inductive exn : Type :=
| AssertionError
| ECIESDecryptionError (msg : string)
| Exception (msg : string)
| IndexError
| ValueError
| StructError
| LibraryError.

(** The result of running a piece of the program: a value, a raised
    exception, or [Spin] when the fuel given to an unbounded loop ran out
    with the loop still running. *)
Inductive outcome (A : Type) : Type :=
| Ok (a : A)
| Raise (e : exn)
| Spin.
Arguments Ok {A} a.
Arguments Raise {A} e.
Arguments Spin {A}.

Definition obind {A B} (c : outcome A) (k : A -> outcome B) : outcome B :=
  match c with
  | Ok a => k a
  | Raise e => Raise e
  | Spin => Spin
  end.

Declare Scope outcome_scope.
Delimit Scope outcome_scope with O.
Notation "x <- c ;; k" := (obind c (fun x => k))
  (at level 61, c at next level, right associativity) : outcome_scope.
Notation "c ;; k" := (obind c (fun _ => k))
  (at level 61, right associativity) : outcome_scope.

(** [assert b] *)
Definition assert (b : bool) : outcome unit :=
  if b then Ok tt else Raise AssertionError.

(** [safe_ord(c)]: the value of a byte. *)
Definition safe_ord (c : byte) : Z := Z.of_N (Byte.to_N c).

(** The byte of value [z mod 256]. *)
Definition byte_of_Z (z : Z) : byte :=
  match Byte.of_N (Z.to_N (z mod 256)) with
  | Some b => b
  | None => x00
  end.


(** [l[i]] for a non-negative index [i]. *)
Definition index {A} (l : list A) (i : nat) : outcome A :=
  match nth_error l i with
  | Some a => Ok a
  | None => Raise IndexError
  end.

(** ** The signature codec *)

(** Modelled from the spec: [bitcoin.encode(val, 256)] of the bitcoin
    library, which is not part of this repository.  It is the minimal
    big-endian base-256 writing of [val]: the loop prepends the digit
    [val % 256] while [val > 0].  A value of [n] bits needs at most [n]
    rounds, which is the fuel given. *)
Fixpoint encode_loop (fuel : nat) (val : Z) (result : bytes) : bytes :=
  match fuel with
  | O => result
  | S fuel' =>
      if 0 <? val
      then encode_loop fuel' (val / 256) (byte_of_Z (val mod 256) :: result)
      else result
  end.

Definition bitcoin_encode (val : Z) : bytes :=
  encode_loop (S (Z.to_nat (Z.log2 val))) val [].

(** Modelled from the spec: [bitcoin.decode(string, 256)] of the bitcoin
    library: the big-endian value of a byte string. *)
Fixpoint decode_loop (string : bytes) (result : Z) : Z :=
  match string with
  | [] => result
  | c :: rest => decode_loop rest (result * 256 + safe_ord c)
  end.

Definition bitcoin_decode (string : bytes) : Z := decode_loop string 0.

(** [lzpad32]: a negative repeat count gives the empty string. *)
Definition lzpad32 (x : bytes) : bytes :=
  repeat x00 (Z.to_nat (32 - len x)) ++ x.


Definition _decode_sig (sig : bytes) : outcome (Z * Z * Z) :=
  (c <- index sig 64 ;;
   Ok (safe_ord c + 27,
       bitcoin_decode (sl sig 0 32),
       bitcoin_decode (sl sig 32 64)))%O.

(** ** The services of the libraries *)

(** A [pyelliptic.ECC] object: the private key may be absent. *)
Record ECC : Type := mkECC {
  privkey : option bytes;
  pubkey_x : bytes;
  pubkey_y : bytes
}.

(** What [crypto.py] calls in pyelliptic, OpenSSL, hashlib, bitcoin and
    coincurve.  [Rng] is the state of the random source; a service that can
    raise returns an [outcome]. *)
Class Services : Type := {
  Rng : Type;
  (** [hashlib.sha256(x).digest()] *)
  sha256 : bytes -> bytes;
  (** [pyelliptic.hmac_sha256(k, m)] *)
  hmac_sha256 : bytes -> bytes -> bytes;
  (** [pyelliptic.Cipher(key, iv, do, 'aes-128-ctr').ciphering(data)] *)
  ciphering : bytes -> bytes -> Z -> bytes -> bytes;
  (** [pyelliptic.OpenSSL.get_cipher('aes-128-ctr').get_blocksize()] *)
  get_blocksize : Z;
  (** [pyelliptic.Cipher.gen_IV('aes-128-ctr')] *)
  gen_IV : Rng -> bytes * Rng;
  (** [pyelliptic.ECC.__init__(self, pubkey_x, pubkey_y, raw_privkey, curve)]:
      sets the keys given, or generates a key pair when there is none. *)
  ECC_init : option bytes -> option bytes -> option bytes -> Rng ->
             outcome ECC * Rng;
  (** [self.raw_get_ecdh_key(pubkey_x, pubkey_y)] *)
  raw_get_ecdh_key : ECC -> bytes -> bytes -> outcome bytes;
  (** [bitcoin.get_privkey_format(priv)], for what it raises *)
  get_privkey_format : bytes -> outcome unit;
  (** [bitcoin.encode_pubkey(bitcoin.privtopub(priv), 'bin_electrum')] *)
  bitcoin_privtopub : bytes -> outcome bytes;
  (** [PublicKey.from_signature_and_message(sig, msg, hasher=None)
        .format(compressed=False)] *)
  from_signature_and_message : bytes -> bytes -> outcome bytes
}.

(** Modelled from the spec: [pyelliptic.equals], the constant-time
    equality check of two byte strings; pyelliptic is not part of this
    repository. *)
Definition equals (a b : bytes) : bool := bytes_eqb a b.

(** ** The concatenation KDF *)

(** [struct.pack('>I', n)] *)
Definition struct_pack_I (n : Z) : outcome bytes :=
  if (0 <=? n) && (n <? 2 ^ 32)
  then Ok [byte_of_Z (n / 2 ^ 24); byte_of_Z (n / 2 ^ 16);
           byte_of_Z (n / 2 ^ 8); byte_of_Z n]
  else Raise StructError.

Section Functions.
Context {SV : Services}.

(** The [while counter <= reps] loop of [eciesKDF]. *)
Fixpoint kdf_loop (fuel : nat) (key_material s1 : bytes)
         (reps counter : Z) (key : bytes) : outcome bytes :=
  if counter <=? reps then
    match fuel with
    | O => Spin
    | S fuel' =>
        let counter := counter + 1 in
        (c <- struct_pack_I counter ;;
         kdf_loop fuel' key_material s1 reps counter
                  (key ++ sha256 (c ++ key_material ++ s1)))%O
    end
  else Ok key.

(** [reps] is the integer quotient of Python 2; the float that a true
    division gives bounds the same number of rounds. *)
Definition eciesKDF (key_material : bytes) (key_len : Z) : outcome bytes :=
  let s1 : bytes := [] in
  let key : bytes := [] in
  let hash_blocksize := 64 in
  let reps := ((key_len + 7) * 8) / (hash_blocksize * 8) in
  let counter := 0 in
  (key <- kdf_loop (Z.to_nat (reps + 1)) key_material s1 reps counter key ;;
   Ok (sl_to key key_len))%O.

(** ** ECDSA verification and recovery *)

Definition ecdsa_verify (pubkey signature message : bytes) : outcome bool :=
  (assert (len pubkey =? 64) ;;
   pk <- from_signature_and_message signature message ;;
   Ok (bytes_eqb pk ([x04] ++ pubkey)))%O.

Definition ecdsa_recover (message signature : bytes) : outcome bytes :=
  (assert (len signature =? 65) ;;
   pk <- from_signature_and_message signature message ;;
   Ok (sl_from pk 1))%O.

Definition privtopub (raw_privkey : bytes) : outcome bytes :=
  (raw_pubkey <- bitcoin_privtopub raw_privkey ;;
   assert (len raw_pubkey =? 64) ;;
   Ok raw_pubkey)%O.
End Functions.

(** ** The world: random source and the calls made *)

(** One event for each call of [ecies_encrypt], [ecies_decrypt] and
    [ECCx.__init__] into a service or into the KDF. *)
Inductive Event : Type :=
| EvECCInit (pubkey_x pubkey_y raw_privkey : option bytes)
| EvECDH (self : ECC) (pubkey_x pubkey_y : bytes)
| EvKDF (key_material : bytes) (key_len : Z)
| EvSHA256 (data : bytes)
| EvHMAC (key data : bytes)
| EvGenIV
| EvCipher (key iv : bytes) (do : Z) (data : bytes).

Definition is_cipher (e : Event) : bool :=
  match e with
  | EvCipher _ _ _ _ => true
  | _ => false
  end.

Section World.
Context {SV : Services}.

Record World : Type := mkWorld {
  entropy : Rng;
  trace : list Event
}.

Definition M (A : Type) : Type := World -> outcome A * World.

Definition ret {A} (a : A) : M A := fun w => (Ok a, w).

Definition bind {A B} (c : M A) (k : A -> M B) : M B :=
  fun w =>
    match c w with
    | (Ok a, w') => k a w'
    | (Raise e, w') => (Raise e, w')
    | (Spin, w') => (Spin, w')
    end.

Definition raise {A} (e : exn) : M A := fun w => (Raise e, w).

Definition spin {A} : M A := fun w => (Spin, w).

Definition lift {A} (c : outcome A) : M A := fun w => (c, w).

Definition tell (e : Event) : M unit :=
  fun w => (Ok tt, mkWorld (entropy w) (trace w ++ [e])).

(** [try: c  except AssertionError: h] *)
Definition except_AssertionError {A} (c : M A) (h : M A) : M A :=
  fun w =>
    match c w with
    | (Raise AssertionError, w') => h w'
    | r => r
    end.
End World.

Declare Scope M_scope.
Delimit Scope M_scope with M.
Notation "x <- c ;; k" := (bind c (fun x => k))
  (at level 61, c at next level, right associativity) : M_scope.
Notation "c ;; k" := (bind c (fun _ => k))
  (at level 61, right associativity) : M_scope.

(** ** The class [ECCx] *)

Module ECCx.
Section Methods.
Context {SV : Services}.
Local Open Scope M_scope.

Definition ecies_encrypt_overhead_length : Z := 113.

(** Python truth of an optional byte string: [None] and [b''] are false. *)
Definition truthy (o : option bytes) : bool :=
  match o with
  | Some (_ :: _) => true
  | _ => false
  end.

(** The property [raw_pubkey]: both branches concatenate the coordinates. *)
Definition raw_pubkey (self : ECC) : bytes :=
  pubkey_x self ++ pubkey_y self.

(** The property [raw_privkey]. *)
Definition raw_privkey (self : ECC) : option bytes :=
  if truthy (privkey self) then privkey self else privkey self.

Definition _decode_pubkey (raw_pubkey : bytes) : outcome (bytes * bytes) :=
  (assert (len raw_pubkey =? 64) ;;
   let pubkey_x := sl_to raw_pubkey 32 in
   let pubkey_y := sl_from raw_pubkey 32 in
   Ok (pubkey_x, pubkey_y))%O.

(** The calls into the services, each recorded in the trace. *)
Definition call_ECC_init (pubkey_x pubkey_y raw_privkey : option bytes)
  : M ECC :=
  tell (EvECCInit pubkey_x pubkey_y raw_privkey) ;;
  fun w =>
    let (r, g) := ECC_init pubkey_x pubkey_y raw_privkey (entropy w) in
    (r, mkWorld g (trace w)).

Definition call_raw_get_ecdh_key (self : ECC) (pubkey_x pubkey_y : bytes)
  : M bytes :=
  tell (EvECDH self pubkey_x pubkey_y) ;;
  lift (raw_get_ecdh_key self pubkey_x pubkey_y).

Definition call_eciesKDF (key_material : bytes) (key_len : Z) : M bytes :=
  tell (EvKDF key_material key_len) ;;
  lift (eciesKDF key_material key_len).

Definition call_sha256 (data : bytes) : M bytes :=
  tell (EvSHA256 data) ;; ret (sha256 data).

Definition call_hmac_sha256 (key data : bytes) : M bytes :=
  tell (EvHMAC key data) ;; ret (hmac_sha256 key data).

Definition call_gen_IV : M bytes :=
  tell EvGenIV ;;
  fun w => let (iv, g) := gen_IV (entropy w) in (Ok iv, mkWorld g (trace w)).

Definition call_ciphering (key iv : bytes) (do : Z) (data : bytes) : M bytes :=
  tell (EvCipher key iv do data) ;; ret (ciphering key iv do data).

Definition massert (b : bool) : M unit := lift (assert b).

(** The [while True] loop of [__init__].  Each round is one unit of fuel;
    [init_pubkey] and [init_privkey] are the arguments [raw_pubkey] and
    [raw_privkey] of [__init__], the first after [privtopub] replaced it. *)
Fixpoint init_loop (fuel : nat) (pubkey_x pubkey_y : option bytes)
         (init_pubkey init_privkey : option bytes) : M ECC :=
  match fuel with
  | O => spin
  | S fuel' =>
      self <- call_ECC_init pubkey_x pubkey_y init_privkey ;;
      if truthy (raw_privkey self)
         && negb (len (match raw_privkey self with
                       | Some k => k | None => [] end) =? 32)
      then init_loop fuel' pubkey_x pubkey_y init_pubkey init_privkey
      else
        valid_priv_key <-
          except_AssertionError
            ((if truthy (raw_privkey self)
              then lift (get_privkey_format
                           (match raw_privkey self with
                            | Some k => k | None => [] end))
              else ret tt) ;;
             ret true)
            (ret false) ;;
        if (len (raw_pubkey self) =? 64) && valid_priv_key
        then ret self
        else if truthy init_privkey || truthy init_pubkey
        then raise (Exception "invalid priv or pubkey")
        else init_loop fuel' pubkey_x pubkey_y init_pubkey init_privkey
  end.

Definition __init__ (fuel : nat) (arg_pubkey arg_privkey : option bytes)
  : M ECC :=
  arg_pubkey <-
    (if truthy arg_privkey
     then massert (negb (truthy arg_pubkey)) ;;
          pub <- lift (privtopub (match arg_privkey with
                                  | Some k => k | None => [] end)) ;;
          ret (Some pub)
     else ret arg_pubkey) ;;
  xy <-
    (if truthy arg_pubkey
     then massert (len (match arg_pubkey with Some k => k | None => [] end)
                   =? 64) ;;
          xy <- lift (_decode_pubkey (match arg_pubkey with
                                      | Some k => k | None => [] end)) ;;
          ret (Some (fst xy), Some (snd xy))
     else ret (None, None)) ;;
  self <- init_loop fuel (fst xy) (snd xy) arg_pubkey arg_privkey ;;
  massert (len (raw_pubkey self) =? 64) ;;
  ret self.

Definition get_ecdh_key (self : ECC) (peer_pubkey : bytes) : M bytes :=
  xy <- lift (_decode_pubkey peer_pubkey) ;;
  key <- call_raw_get_ecdh_key self (fst xy) (snd xy) ;;
  massert (len key =? 32) ;;
  ret key.

Definition ecies_encrypt (fuel : nat)
           (data peer_pubkey shared_mac_data : bytes) : M bytes :=
  (* 1) generate r = random value *)
  ephem <- __init__ fuel None None ;;
  (* 2) generate shared-secret = kdf( ecdhAgree(r, P) ) *)
  key_material <-
    call_raw_get_ecdh_key ephem (sl_to peer_pubkey 32)
                          (sl_from peer_pubkey 32) ;;
  massert (len key_material =? 32) ;;
  key <- call_eciesKDF key_material 32 ;;
  massert (len key =? 32) ;;
  let key_enc := sl_to key 16 in
  let key_mac := sl_from key 16 in
  key_mac <- call_sha256 key_mac ;;
  massert (len key_mac =? 32) ;;
  (* 3) generate R = rG *)
  let ephem_pubkey := raw_pubkey ephem in
  (* encrypt *)
  iv <- call_gen_IV ;;
  massert (len iv =? 16) ;;
  ciphertext <- call_ciphering key_enc iv 1 data ;;
  massert (len ciphertext =? len data) ;;
  (* 4) send 0x04 || R || AsymmetricEncrypt(shared-secret, plaintext) || tag *)
  let msg := [x04] ++ ephem_pubkey ++ iv ++ ciphertext in
  tag <- call_hmac_sha256 key_mac (sl_from msg (1 + 64) ++ shared_mac_data) ;;
  massert (len tag =? 32) ;;
  let msg := msg ++ tag in
  massert ((len msg =? 1 + 64 + 16 + 32 + len data)
           && (1 + 64 + 16 + 32 + len data =? 113 + len data)) ;;
  massert (len msg - ecies_encrypt_overhead_length =? len data) ;;
  ret msg.

Definition ecies_decrypt (self : ECC) (data shared_mac_data : bytes)
  : M bytes :=
  if negb (bytes_eqb (sl_to data 1) [x04])
  then raise (ECIESDecryptionError "wrong ecies header")
  else
    (* 1) generate shared-secret = kdf( ecdhAgree(myPrivKey, msg[1:65]) ) *)
    let _shared := sl data 1 (1 + 64) in
    key_material <-
      call_raw_get_ecdh_key self (sl_to _shared 32) (sl_from _shared 32) ;;
    massert (len key_material =? 32) ;;
    key <- call_eciesKDF key_material 32 ;;
    massert (len key =? 32) ;;
    let key_enc := sl_to key 16 in
    let key_mac := sl_from key 16 in
    key_mac <- call_sha256 key_mac ;;
    massert (len key_mac =? 32) ;;
    let tag := sl_from data (- 32) in
    massert (len tag =? 32) ;;
    (* 2) verify tag *)
    mac <- call_hmac_sha256 key_mac
             (sl data (1 + 64) (- 32) ++ shared_mac_data) ;;
    if negb (equals mac tag)
    then raise (ECIESDecryptionError "Fail to verify data")
    else
      (* 3) decrypt *)
      let blocksize := get_blocksize in
      let iv := sl data (1 + 64) (1 + 64 + blocksize) in
      massert (len iv =? 16) ;;
      let ciphertext := sl data (1 + 64 + blocksize) (- 32) in
      massert (1 + len _shared + len iv + len ciphertext + len tag
               =? len data) ;;
      call_ciphering key_enc iv 0 ciphertext.

Definition verify (self : ECC) (signature message : bytes) : outcome bool :=
  (assert (len signature =? 65) ;;
   ecdsa_verify (raw_pubkey self) signature message)%O.

End Methods.
End ECCx.

(** ** What the claims speak about *)

Section Notions.
Context {SV : Services}.

(** Running a computation from a world. *)
Definition result {A} (c : M A) (w : World) : outcome A := fst (c w).

(** The events a computation adds to the trace of [w]. *)
Definition events {A} (c : M A) (w : World) : list Event :=
  skipn (length (trace w)) (trace (snd (c w))).

(** An object that [pyelliptic.ECC.__init__] returned. *)
Definition constructed (e : ECC) : Prop :=
  exists x y k g g', ECC_init x y k g = (Ok e, g').

(** A valid recipient key pair: an [ECC] object holding a private key,
    with two coordinates of 32 bytes. *)
Definition valid_keypair (K : ECC) : Prop :=
  constructed K /\ ECCx.truthy (privkey K) = true /\
  length (pubkey_x K) = 32%nat /\ length (pubkey_y K) = 32%nat.

(** The verdict of one round of the loop of [ECCx.__init__] on the object
    [self] that [pyelliptic.ECC.__init__] built: [Ok true] leaves the loop,
    [Ok false] is one more round when no key was given to [__init__],
    [Raise] is what [get_privkey_format] raised other than
    [AssertionError]. *)
Definition verdict (self : ECC) : outcome bool :=
  match privkey self with
  | Some (b :: k) =>
      if len (b :: k) =? 32 then
        match get_privkey_format (b :: k) with
        | Ok _ => Ok (len (ECCx.raw_pubkey self) =? 64)
        | Raise AssertionError => Ok false
        | Raise e => Raise e
        | Spin => Spin
        end
      else Ok false
  | _ => Ok (len (ECCx.raw_pubkey self) =? 64)
  end.

(** The next [n] keys of the random source are all sent back by the loop. *)
Fixpoint all_rejected (n : nat) (g : Rng) : Prop :=
  match n with
  | O => True
  | S n' =>
      exists e g', ECC_init None None None g = (Ok e, g') /\
                   verdict e = Ok false /\ all_rejected n' g'
  end.

(** The next [n] keys are sent back and the key after them, [e], leaves
    the loop. *)
Fixpoint accepted_after (n : nat) (g : Rng) (e : ECC) : Prop :=
  match n with
  | O => exists g', ECC_init None None None g = (Ok e, g') /\
                    verdict e = Ok true
  | S n' =>
      exists e0 g', ECC_init None None None g = (Ok e0, g') /\
                    verdict e0 = Ok false /\ accepted_after n' g' e
  end.

(** The laws of the services that the round trip of ECIES rests on. *)
Class Laws : Prop := {
  sha256_size : forall x, length (sha256 x) = 32%nat;
  hmac_sha256_size : forall k m, length (hmac_sha256 k m) = 32%nat;
  ciphering_size : forall k iv d p, length (ciphering k iv d p) = length p;
  ciphering_inverse : forall k iv p, ciphering k iv 0 (ciphering k iv 1 p) = p;
  get_blocksize_16 : get_blocksize = 16;
  gen_IV_size : forall g, length (fst (gen_IV g)) = 16%nat;
  generated_privkey : forall g g' e,
    ECC_init None None None g = (Ok e, g') -> ECCx.truthy (privkey e) = true;
  coordinate_size : forall g g' e,
    ECC_init None None None g = (Ok e, g') ->
    (length (pubkey_x e) <= 32)%nat /\ (length (pubkey_y e) <= 32)%nat;
  ecdh_agreement : forall a b,
    constructed a -> constructed b ->
    ECCx.truthy (privkey a) = true -> ECCx.truthy (privkey b) = true ->
    length (pubkey_x a) = 32%nat -> length (pubkey_y a) = 32%nat ->
    length (pubkey_x b) = 32%nat -> length (pubkey_y b) = 32%nat ->
    exists z, length z = 32%nat /\
              raw_get_ecdh_key a (pubkey_x b) (pubkey_y b) = Ok z /\
              raw_get_ecdh_key b (pubkey_x a) (pubkey_y a) = Ok z
}.

(** [BE32(i)]: the four bytes that [struct.pack('>I', i)] returns. *)
Definition be32 (i : Z) : bytes :=
  match struct_pack_I i with
  | Ok c => c
  | _ => []
  end.

(** The digests of [n] successive rounds of the loop of [eciesKDF], the
    first with the counter [i]. *)
Fixpoint kdf_blocks (secret : bytes) (n : nat) (i : Z) : bytes :=
  match n with
  | O => []
  | S n' => sha256 (be32 i ++ secret ++ []) ++ kdf_blocks secret n' (i + 1)
  end.

(** The KDF as the specification words it: digest blocks
    [SHA256(BE32(i) || secret)] for [i = 1, 2, ...] until at least
    [outputLen] bytes exist, then the first [outputLen] bytes. *)
Fixpoint spec_blocks (fuel : nat) (secret : bytes) (i outputLen : Z)
         (acc : bytes) : bytes :=
  match fuel with
  | O => acc
  | S fuel' =>
      if len acc <? outputLen
      then spec_blocks fuel' secret (i + 1) outputLen
             (acc ++ sha256 (be32 i ++ secret))
      else acc
  end.

Definition spec_kdf (secret : bytes) (outputLen : Z) : bytes :=
  firstn (Z.to_nat outputLen)
         (spec_blocks (Z.to_nat outputLen) secret 1 outputLen []).
End Notions.

(** ** A small instance of the services

    Arithmetic modulo [p] stands for the curve: the public key of the scalar
    [k] has the coordinates [k * gx] and [k * gy], and the shared secret of
    [k] with the point of abscissa [x] is [k * x].  Keys and coordinates are
    written without leading zeros, as pyelliptic writes them, so that a key
    can come out short.  The instance gives inputs on which the theorems
    below are run. *)

Module Toy.

Definition p : Z := 2 ^ 256 - 189.
Definition gx : Z := 3.
Definition gy : Z := 5.

(** The random source: the next integer it gives and the step to the one
    after. *)
Record rng : Type := mkRng { next : Z; step : Z }.

Definition draw (g : rng) : Z * rng :=
  (next g, mkRng (next g + step g) (step g)).

Definition pub_of (k : Z) : bytes * bytes :=
  (bitcoin_encode ((k * gx) mod p), bitcoin_encode ((k * gy) mod p)).

Definition consistent (k x y : bytes) : bool :=
  (bitcoin_decode x =? (bitcoin_decode k * gx) mod p)
  && (bitcoin_decode y =? (bitcoin_decode k * gy) mod p).

Definition ECC_init (x y k : option bytes) (g : rng) : outcome ECC * rng :=
  match x, y with
  | Some x, Some y =>
      if (len x <=? 32) && (len y <=? 32)
         && match k with Some kb => consistent kb x y | None => true end
      then (Ok (mkECC k x y), g)
      else (Raise LibraryError, g)
  | _, _ =>
      let (v, g') := draw g in
      let k := 1 + v mod (p - 1) in
      (Ok (mkECC (Some (bitcoin_encode k)) (fst (pub_of k)) (snd (pub_of k))),
       g')
  end.

Definition raw_get_ecdh_key (self : ECC) (x y : bytes) : outcome bytes :=
  match privkey self with
  | Some (b :: k) =>
      Ok (lzpad32 (bitcoin_encode
                     ((bitcoin_decode (b :: k) * bitcoin_decode x) mod p)))
  | _ => Raise LibraryError
  end.

Definition sha256 (x : bytes) : bytes :=
  lzpad32 (bitcoin_encode ((bitcoin_decode x * 31 + len x + 7) mod 2 ^ 256)).

Definition hmac_sha256 (k m : bytes) : bytes := sha256 (k ++ m).

Definition ciphering (key iv : bytes) (do : Z) (data : bytes) : bytes :=
  let ks := bitcoin_decode key + bitcoin_decode iv in
  map (fun b => byte_of_Z (if do =? 1 then safe_ord b + ks
                           else safe_ord b - ks)) data.

Definition gen_IV (g : rng) : bytes * rng :=
  let (v, g') := draw g in
  (skipn 16 (lzpad32 (bitcoin_encode (v mod 2 ^ 128))), g').

Definition get_privkey_format (k : bytes) : outcome unit :=
  if (len k =? 32) || (len k =? 33) || (len k =? 64) || (len k =? 66)
  then Ok tt else Raise AssertionError.

Definition bitcoin_privtopub (k : bytes) : outcome bytes :=
  let xy := pub_of (bitcoin_decode k) in
  Ok (lzpad32 (fst xy) ++ lzpad32 (snd xy)).

Definition from_signature_and_message (sig msg : bytes) : outcome bytes :=
  if (len sig =? 65) && (len msg =? 32)
  then match nth_error sig 64 with
       | Some c => if safe_ord c <=? 3 then Ok (x04 :: firstn 64 sig)
                   else Raise ValueError
       | None => Raise ValueError
       end
  else Raise ValueError.

Definition services : Services :=
  Build_Services rng sha256 hmac_sha256 ciphering 16 gen_IV ECC_init
                 raw_get_ecdh_key get_privkey_format bitcoin_privtopub
                 from_signature_and_message.

(** A source whose keys are long enough, one that only gives the scalar 1,
    and one whose first two keys are short. *)
Definition fair : rng := mkRng (2 ^ 255) 1.
Definition stuck : rng := mkRng 0 0.
Definition slow : rng := mkRng 4 (2 ^ 247).

Definition world (g : rng) : @World services := @mkWorld services g [].

(** The key pair of a recipient. *)
Definition recipient : ECC :=
  let k := 2 ^ 255 + 12345 in
  mkECC (Some (bitcoin_encode k)) (fst (pub_of k)) (snd (pub_of k)).

Definition hello : bytes := [x68; x65; x6c; x6c; x6f].

(** What [ECC_init] guarantees of the object it returns: coordinates of at
    most 32 bytes, and an abscissa that belongs to the private key. *)
Definition sound (e : ECC) : Prop :=
  (length (pubkey_x e) <= 32)%nat /\ (length (pubkey_y e) <= 32)%nat /\
  forall k, privkey e = Some k ->
            bitcoin_decode (pubkey_x e) = (bitcoin_decode k * gx) mod p.

(** ["hello"] encrypted to [recipient], and the same message with the last
    byte of its tag changed. *)
Definition sample_message : bytes :=
  Eval vm_compute in
    match fst (@ECCx.ecies_encrypt services 1 hello
                 (ECCx.raw_pubkey recipient) [] (world fair)) with
    | Ok msg => msg
    | _ => []
    end.


End Toy.

(** ** The module-level [encrypt] and one more notion *)

Section MoreNotions.
Context {SV : Services}.

(** The module-level [encrypt]: [shared_mac_data] is left to its default. *)
Definition encrypt (fuel : nat) (data raw_pubkey : bytes) : M bytes :=
  (ECCx.massert (len raw_pubkey =? 64) ;;
   ECCx.ecies_encrypt fuel data raw_pubkey [])%M.

(** The first test of a round of the loop of [ECCx.__init__]: a private
    key is there and is not 32 bytes long. *)
Definition short_privkey (self : ECC) : bool :=
  ECCx.truthy (ECCx.raw_privkey self)
  && negb (len (match ECCx.raw_privkey self with
                | Some k => k | None => [] end) =? 32).
End MoreNotions.

(** * Properties *)

(** ** Bytes and slices *)


Lemma len_app {A} (a b : list A) : len (a ++ b) = len a + len b.
Proof. unfold len. rewrite length_app. lia. Qed.

Lemma len_eqb_spec {A} (l : list A) (n : nat) :
  (len l =? Z.of_nat n) = true <-> length l = n.
Proof. unfold len. rewrite Z.eqb_eq. lia. Qed.

Lemma bytes_eqb_eq (a b : bytes) : bytes_eqb a b = true <-> a = b.
Proof.
  unfold bytes_eqb. destruct (bytes_eq_dec a b); split; congruence.
Qed.

Lemma bytes_eqb_refl (a : bytes) : bytes_eqb a a = true.
Proof. now apply bytes_eqb_eq. Qed.

Lemma bytes_eqb_neq (a b : bytes) : bytes_eqb a b = false <-> a <> b.
Proof.
  unfold bytes_eqb. destruct (bytes_eq_dec a b); split; congruence.
Qed.

Lemma safe_ord_range (c : byte) : 0 <= safe_ord c < 256.
Proof.
  unfold safe_ord. pose proof (Byte.to_N_bounded c). lia.
Qed.

Lemma safe_ord_byte_of_Z (z : Z) : safe_ord (byte_of_Z z) = z mod 256.
Proof.
  unfold safe_ord, byte_of_Z.
  pose proof (Z.mod_pos_bound z 256 eq_refl) as Hm.
  destruct (Byte.of_N (Z.to_N (z mod 256))) as [b|] eqn:E.
  - apply Byte.to_of_N in E. rewrite E. lia.
  - apply Byte.of_N_None_iff in E. lia.
Qed.

Lemma byte_of_Z_safe_ord (c : byte) : byte_of_Z (safe_ord c) = c.
Proof.
  unfold byte_of_Z. pose proof (safe_ord_range c) as Hr.
  rewrite Z.mod_small by lia. unfold safe_ord.
  rewrite N2Z.id, Byte.of_to_N. reflexivity.
Qed.

Lemma byte_of_Z_mod (z : Z) : byte_of_Z (z mod 256) = byte_of_Z z.
Proof. unfold byte_of_Z. now rewrite Z.mod_mod by lia. Qed.

(** A slice with bounds counted from the start is [firstn] of [skipn]. *)
Lemma sl_to_firstn {A} (l : list A) (j : Z) :
  0 <= j -> sl_to l j = firstn (Z.to_nat j) l.
Proof.
  intros Hj. unfold sl_to, slice, clamp, len.
  destruct (j <? 0) eqn:E; [lia|]. cbn [skipn Z.to_nat].
  rewrite Z.sub_0_r.
  destruct (Z.le_ge_cases j (Z.of_nat (length l))).
  - now rewrite Z.min_l.
  - rewrite Z.min_r by lia. rewrite Nat2Z.id.
    rewrite !firstn_all2; trivial; lia.
Qed.

Lemma sl_from_skipn {A} (l : list A) (i : Z) :
  0 <= i -> sl_from l i = skipn (Z.to_nat i) l.
Proof.
  intros Hi. unfold sl_from, slice, clamp, len.
  destruct (i <? 0) eqn:E; [lia|].
  destruct (Z.le_ge_cases i (Z.of_nat (length l))).
  - rewrite Z.min_l by lia. apply firstn_all2. rewrite length_skipn. lia.
  - rewrite Z.min_r by lia. rewrite Nat2Z.id.
    rewrite !skipn_all2; try lia. now destruct (Z.to_nat _).
Qed.

Lemma sl_firstn_skipn {A} (l : list A) (i j : Z) :
  0 <= i <= j ->
  sl l i j = firstn (Z.to_nat (j - i)) (skipn (Z.to_nat i) l).
Proof.
  intros Hij. unfold sl, slice, clamp, len.
  destruct (i <? 0) eqn:E; [lia|]. destruct (j <? 0) eqn:E'; [lia|].
  destruct (Z.le_ge_cases i (Z.of_nat (length l)));
    destruct (Z.le_ge_cases j (Z.of_nat (length l))).
  - now rewrite !Z.min_l by lia.
  - rewrite (Z.min_l i) by lia. rewrite (Z.min_r j) by lia.
    rewrite !firstn_all2; trivial; rewrite length_skipn; lia.
  - rewrite (Z.min_r i) by lia. rewrite (Z.min_l j) by lia.
    rewrite Nat2Z.id. rewrite !skipn_all2 by lia. now rewrite !firstn_nil.
  - rewrite !Z.min_r by lia. rewrite Nat2Z.id.
    rewrite !skipn_all2 by lia. now rewrite !firstn_nil.
Qed.

(** Slices whose bound is counted from the end. *)
Lemma sl_from_end {A} (l : list A) (k : Z) :
  k < 0 -> sl_from l k = skipn (length l - Z.to_nat (- k)) l.
Proof.
  intros Hk. unfold sl_from, slice, clamp, len.
  destruct (k <? 0) eqn:E; [|lia].
  destruct (Z.le_ge_cases (- k) (Z.of_nat (length l))).
  - rewrite Z.max_r by lia.
    replace (Z.to_nat (Z.of_nat (length l) + k))
      with (length l - Z.to_nat (- k))%nat by lia.
    apply firstn_all2. rewrite length_skipn. lia.
  - rewrite Z.max_l by lia.
    replace (length l - Z.to_nat (- k))%nat with 0%nat by lia.
    cbn [Z.to_nat skipn]. apply firstn_all2. lia.
Qed.

Lemma sl_to_end {A} (l : list A) (i k : Z) :
  0 <= i -> k < 0 ->
  sl l i k =
  firstn (length l - Z.to_nat (- k) - Z.to_nat i) (skipn (Z.to_nat i) l).
Proof.
  intros Hi Hk. unfold sl, slice, clamp, len.
  destruct (i <? 0) eqn:E; [lia|]. destruct (k <? 0) eqn:E'; [|lia].
  destruct (Z.le_ge_cases i (Z.of_nat (length l))).
  - rewrite Z.min_l by lia. f_equal. lia.
  - rewrite Z.min_r by lia. rewrite Nat2Z.id.
    rewrite !skipn_all2 by lia. now rewrite !firstn_nil.
Qed.

Lemma firstn_skipn_middle {A} (a b c : list A) :
  firstn (length b) (skipn (length a) (a ++ b ++ c)) = b.
Proof.
  rewrite skipn_app, skipn_all, Nat.sub_diag. cbn [skipn app].
  rewrite firstn_app, firstn_all, Nat.sub_diag. cbn [firstn].
  apply app_nil_r.
Qed.

Lemma firstn_app_exact {A} (n : nat) (a r : list A) :
  length a = n -> firstn n (a ++ r) = a.
Proof.
  intros <-. rewrite firstn_app, firstn_all, Nat.sub_diag. cbn [firstn].
  apply app_nil_r.
Qed.

Lemma skipn_app_exact {A} (n : nat) (a r : list A) :
  length a = n -> skipn n (a ++ r) = r.
Proof.
  intros <-. rewrite skipn_app, skipn_all, Nat.sub_diag. reflexivity.
Qed.

Lemma firstn_skipn_exact {A} (n m : nat) (a b r : list A) :
  length a = n -> length b = m -> firstn m (skipn n (a ++ b ++ r)) = b.
Proof. intros <- <-. apply firstn_skipn_middle. Qed.

(** ** The base-256 writing of integers *)

Lemma decode_loop_acc (l : bytes) (r : Z) :
  decode_loop l r = r * 256 ^ len l + decode_loop l 0.
Proof.
  revert r. induction l as [|c l IH]; intros r; cbn [decode_loop].
  - unfold len. cbn. lia.
  - rewrite IH, (IH (0 * 256 + safe_ord c)).
    unfold len. cbn [length]. rewrite Nat2Z.inj_succ, Z.pow_succ_r by lia.
    lia.
Qed.

Lemma decode_cons (c : byte) (l : bytes) :
  bitcoin_decode (c :: l) = safe_ord c * 256 ^ len l + bitcoin_decode l.
Proof.
  unfold bitcoin_decode. cbn [decode_loop]. rewrite decode_loop_acc. lia.
Qed.



Lemma decode_encode_loop (fuel : nat) (val : Z) (res : bytes) :
  0 <= val < 2 ^ Z.of_nat fuel ->
  bitcoin_decode (encode_loop fuel val res)
  = val * 256 ^ len res + bitcoin_decode res.
Proof.
  revert val res. induction fuel as [|fuel IH]; intros val res Hv.
  - cbn in Hv. cbn [encode_loop]. assert (val = 0) by lia. subst. lia.
  - cbn [encode_loop]. destruct (0 <? val) eqn:E.
    + rewrite IH.
      * rewrite decode_cons, safe_ord_byte_of_Z, Z.mod_mod by lia.
        unfold len at 1. cbn [length].
        rewrite Nat2Z.inj_succ, Z.pow_succ_r by lia. fold (len res).
        pose proof (Z.div_mod val 256 ltac:(lia)) as Hd.
        set (q := val / 256) in *. set (m := val mod 256) in *.
        rewrite Hd. ring.
      * rewrite Nat2Z.inj_succ, Z.pow_succ_r in Hv by lia.
        split; [apply Z.div_pos; lia|].
        apply Z.div_lt_upper_bound; lia.
    + assert (val = 0) by lia. subst. lia.
Qed.

Lemma encode_loop_length (fuel : nat) (k : nat) (val : Z) (res : bytes) :
  0 <= val < 256 ^ Z.of_nat k ->
  (length (encode_loop fuel val res) <= k + length res)%nat.
Proof.
  revert k val res. induction fuel as [|fuel IH]; intros k val res Hv;
    cbn [encode_loop]; [lia|].
  destruct (0 <? val) eqn:E; [|lia].
  destruct k as [|k]; [cbn in Hv; lia|].
  rewrite Nat2Z.inj_succ, Z.pow_succ_r in Hv by lia.
  specialize (IH k (val / 256) (byte_of_Z (val mod 256) :: res)).
  cbn [length] in IH. rewrite <- Nat.add_succ_comm in IH. apply IH.
  split; [apply Z.div_pos; lia|]. apply Z.div_lt_upper_bound; lia.
Qed.

Lemma log2_fuel (val : Z) :
  0 <= val -> val < 2 ^ Z.of_nat (S (Z.to_nat (Z.log2 val))).
Proof.
  intros Hv. rewrite Nat2Z.inj_succ, Z2Nat.id by apply Z.log2_nonneg.
  destruct (Z.eq_dec val 0) as [->|Hn]; [cbn; lia|].
  apply Z.log2_spec. lia.
Qed.

Lemma decode_encode (val : Z) :
  0 <= val -> bitcoin_decode (bitcoin_encode val) = val.
Proof.
  intros Hv. unfold bitcoin_encode.
  rewrite decode_encode_loop by (split; [lia | now apply log2_fuel]).
  unfold len, bitcoin_decode. cbn. lia.
Qed.

Lemma encode_length (val : Z) (k : nat) :
  0 <= val < 256 ^ Z.of_nat k -> (length (bitcoin_encode val) <= k)%nat.
Proof.
  intros Hv. unfold bitcoin_encode.
  pose proof (encode_loop_length (S (Z.to_nat (Z.log2 val))) k val [] Hv).
  cbn [length] in *. lia.
Qed.

Lemma lzpad32_length (x : bytes) :
  (length x <= 32)%nat -> length (lzpad32 x) = 32%nat.
Proof.
  intros Hx. unfold lzpad32, len.
  rewrite length_app, repeat_length. lia.
Qed.


Lemma lzpad32_encode_length (val : Z) :
  0 <= val < 2 ^ 256 -> length (lzpad32 (bitcoin_encode val)) = 32%nat.
Proof.
  intros Hv. apply lzpad32_length. apply encode_length.
  change (256 ^ Z.of_nat 32) with (2 ^ 256). exact Hv.
Qed.

(** ** The signature codec *)








(** ** The concatenation KDF *)

Section KDFFacts.
Context {SV : Services}.

Lemma struct_pack_I_be32 (i : Z) :
  0 <= i < 2 ^ 32 -> struct_pack_I i = Ok (be32 i).
Proof.
  intros Hi. unfold be32, struct_pack_I.
  destruct (0 <=? i) eqn:E1; [|lia]. destruct (i <? 2 ^ 32) eqn:E2; [|lia].
  reflexivity.
Qed.

Lemma be32_length (i : Z) : 0 <= i < 2 ^ 32 -> length (be32 i) = 4%nat.
Proof.
  intros Hi. unfold be32, struct_pack_I.
  destruct (0 <=? i) eqn:E1; [|lia]. destruct (i <? 2 ^ 32) eqn:E2; [|lia].
  reflexivity.
Qed.

(** The loop runs [reps + 1 - counter] rounds and appends one digest in
    each; the fuel that [eciesKDF] gives it is enough. *)
Lemma kdf_loop_blocks (secret : bytes) (n : nat) :
  forall (fuel : nat) (reps counter : Z) (key : bytes),
    0 <= counter -> reps + 1 < 2 ^ 32 ->
    Z.of_nat n = reps + 1 - counter -> (n <= fuel)%nat ->
    kdf_loop fuel secret [] reps counter key
    = Ok (key ++ kdf_blocks secret n (counter + 1)).
Proof.
  induction n as [|n IH]; intros fuel reps counter key Hc Hr Hn Hf.
  - assert (E : (counter <=? reps) = false) by lia.
    destruct fuel; cbn [kdf_loop kdf_blocks]; rewrite E, app_nil_r;
      reflexivity.
  - assert (E : (counter <=? reps) = true) by lia.
    destruct fuel as [|fuel]; [lia|]. cbn [kdf_loop kdf_blocks].
    rewrite E, struct_pack_I_be32 by lia. cbn [obind].
    rewrite (IH fuel reps (counter + 1)) by lia.
    now rewrite <- app_assoc.
Qed.

Lemma eciesKDF_blocks (secret : bytes) (key_len : Z) :
  0 <= key_len < 2 ^ 37 ->
  eciesKDF secret key_len
  = Ok (firstn (Z.to_nat key_len)
               (kdf_blocks secret (Z.to_nat ((key_len + 7) / 64 + 1)) 1)).
Proof.
  intros Hk. unfold eciesKDF.
  change (64 * 8) with (8 * 8 * 8).
  replace ((key_len + 7) * 8 / (8 * 8 * 8)) with ((key_len + 7) / 64).
  2:{ rewrite Z.div_mul_cancel_r by lia. reflexivity. }
  assert (0 <= (key_len + 7) / 64) by (apply Z.div_pos; lia).
  assert ((key_len + 7) / 64 < 2 ^ 32 - 1)
    by (apply Z.div_lt_upper_bound; lia).
  rewrite (kdf_loop_blocks secret (Z.to_nat ((key_len + 7) / 64 + 1)))
    by lia.
  cbn [obind app]. rewrite sl_to_firstn by lia. reflexivity.
Qed.

Hypothesis sha256_32 : forall x, length (sha256 x) = 32%nat.

Lemma kdf_blocks_length (secret : bytes) (n : nat) (i : Z) :
  length (kdf_blocks secret n i) = (32 * n)%nat.
Proof.
  revert i. induction n as [|n IH]; intros i; cbn [kdf_blocks length];
    [lia|].
  rewrite length_app, sha256_32, IH. lia.
Qed.

(** The number of bytes [eciesKDF] returns: the bytes asked for, or all
    the digests of the [(key_len + 7) / 64 + 1] rounds if these are fewer. *)
Lemma eciesKDF_length (secret : bytes) (key_len : Z) :
  0 <= key_len < 2 ^ 37 ->
  exists key, eciesKDF secret key_len = Ok key /\
              len key = Z.min key_len (32 * ((key_len + 7) / 64 + 1)).
Proof.
  intros Hk. eexists. split; [now apply eciesKDF_blocks|].
  assert (0 <= (key_len + 7) / 64) by (apply Z.div_pos; lia).
  unfold len. rewrite length_firstn, kdf_blocks_length. lia.
Qed.

(** Up to 32 bytes the KDF returns what is asked for: a prefix of the
    first digest. *)
Lemma eciesKDF_first_block (secret : bytes) (key_len : Z) :
  0 <= key_len <= 32 ->
  eciesKDF secret key_len
  = Ok (firstn (Z.to_nat key_len) (sha256 (be32 1 ++ secret ++ []))) /\
  len (firstn (Z.to_nat key_len) (sha256 (be32 1 ++ secret ++ []))) = key_len.
Proof.
  intros Hk. split.
  - rewrite eciesKDF_blocks by lia.
    replace ((key_len + 7) / 64) with 0
      by (symmetry; apply Z.div_small; lia).
    change (Z.to_nat (0 + 1)) with 1%nat. cbn [kdf_blocks].
    now rewrite app_nil_r.
  - unfold len. rewrite length_firstn, sha256_32. lia.
Qed.

Lemma spec_blocks_done (fuel : nat) (secret : bytes) (i n : Z) (acc : bytes) :
  n <= len acc -> spec_blocks fuel secret i n acc = acc.
Proof.
  intros Hn. destruct fuel; cbn [spec_blocks]; [reflexivity|].
  assert (E : (len acc <? n) = false) by lia. now rewrite E.
Qed.

Lemma spec_blocks_step (fuel : nat) (secret : bytes) (i n : Z) (acc : bytes) :
  len acc < n ->
  spec_blocks (S fuel) secret i n acc
  = spec_blocks fuel secret (i + 1) n (acc ++ sha256 (be32 i ++ secret)).
Proof.
  intros Hn. cbn [spec_blocks].
  assert (E : (len acc <? n) = true) by lia. now rewrite E.
Qed.

(** The KDF of the specification returns exactly the bytes asked for. *)
Lemma spec_blocks_enough (fuel : nat) (secret : bytes) (i n : Z) (acc : bytes) :
  n <= len acc + 32 * Z.of_nat fuel ->
  n <= len (spec_blocks fuel secret i n acc).
Proof.
  revert i acc. induction fuel as [|fuel IH]; intros i acc Hn.
  - cbn [spec_blocks]. lia.
  - destruct (Z.lt_ge_cases (len acc) n).
    + rewrite spec_blocks_step by assumption. apply IH.
      rewrite len_app. unfold len at 2. rewrite sha256_32. lia.
    + rewrite spec_blocks_done; lia.
Qed.

Lemma spec_kdf_length (secret : bytes) (n : Z) :
  0 <= n -> len (spec_kdf secret n) = n.
Proof.
  intros Hn. unfold spec_kdf.
  pose proof (spec_blocks_enough (Z.to_nat n) secret 1 n []) as H.
  unfold len in *. cbn [length] in H. rewrite length_firstn. lia.
Qed.

End KDFFacts.

Lemma toy_sha256_size (x : bytes) : length (Toy.sha256 x) = 32%nat.
Proof.
  unfold Toy.sha256. apply lzpad32_encode_length.
  apply Z.mod_pos_bound. reflexivity.
Qed.

(** C2: the code does not return [outputLen] bytes for every positive
    [outputLen].  For 33 bytes [reps] is [(33 + 7) * 8 / (64 * 8) = 0], the
    loop makes one round, and [eciesKDF] returns the 32 bytes of the first
    digest, where the KDF of the specification returns 33 bytes. *)
Theorem eciesKDF_33_gives_32_bytes {SV : Services} :
  (forall x, length (sha256 x) = 32%nat) ->
  forall secret : bytes,
  exists key,
    eciesKDF secret 33 = Ok key /\
    key = sha256 (be32 1 ++ secret ++ []) /\
    length key = 32%nat /\
    length (spec_kdf secret 33) = 33%nat /\
    key <> spec_kdf secret 33.
Proof.
  intros Hsha secret.
  exists (sha256 (be32 1 ++ secret ++ [])).
  assert (Hspec : length (spec_kdf secret 33) = 33%nat).
  { pose proof (spec_kdf_length Hsha secret 33 ltac:(lia)) as H.
    unfold len in H. lia. }
  split.
  - rewrite eciesKDF_blocks by lia.
    change (Z.to_nat ((33 + 7) / 64 + 1)) with 1%nat. cbn [kdf_blocks].
    rewrite app_nil_r, firstn_all2; [reflexivity|].
    rewrite Hsha. change (Z.to_nat 33) with 33%nat. lia.
  - split; [reflexivity|]. split; [apply Hsha|]. split; [exact Hspec|].
    intros E. rewrite <- E, Hsha in Hspec. discriminate.
Qed.

Lemma eciesKDF_33_gives_32_bytes_witness :
  exists key,
    @eciesKDF Toy.services [x01] 33 = Ok key /\
    key = @sha256 Toy.services (be32 1 ++ [x01] ++ []) /\
    length key = 32%nat /\
    length (@spec_kdf Toy.services [x01] 33) = 33%nat /\
    key <> @spec_kdf Toy.services [x01] 33.
Proof.
  exact (@eciesKDF_33_gives_32_bytes Toy.services toy_sha256_size [x01]).
Defined.

(** C9: the code is not prefix-stable for all [m < n].  With [m = 40] and
    [n = 64]: [eciesKDF s 64] makes two rounds and returns 64 bytes, of
    which the first 40 are taken; [eciesKDF s 40] makes one round and
    returns only the 32 bytes of the first digest. *)
Theorem eciesKDF_prefix_40_of_64 {SV : Services} :
  (forall x, length (sha256 x) = 32%nat) ->
  forall secret : bytes,
  exists kn km,
    eciesKDF secret 64 = Ok kn /\
    eciesKDF secret 40 = Ok km /\
    length (sl_to kn 40) = 40%nat /\
    length km = 32%nat /\
    sl_to kn 40 <> km.
Proof.
  intros Hsha secret.
  destruct (eciesKDF_length Hsha secret 64 ltac:(lia)) as (kn & En & Ln).
  destruct (eciesKDF_length Hsha secret 40 ltac:(lia)) as (km & Em & Lm).
  change (Z.min 64 (32 * ((64 + 7) / 64 + 1))) with 64 in Ln.
  change (Z.min 40 (32 * ((40 + 7) / 64 + 1))) with 32 in Lm.
  unfold len in Ln, Lm.
  assert (L40 : length (sl_to kn 40) = 40%nat).
  { rewrite sl_to_firstn by lia. rewrite length_firstn. lia. }
  exists kn, km. repeat split; try assumption; try lia.
  intros E. rewrite E in L40. lia.
Qed.

Lemma eciesKDF_prefix_40_of_64_witness :
  exists kn km,
    @eciesKDF Toy.services [x01] 64 = Ok kn /\
    @eciesKDF Toy.services [x01] 40 = Ok km /\
    length (sl_to kn 40) = 40%nat /\
    length km = 32%nat /\
    sl_to kn 40 <> km.
Proof.
  exact (@eciesKDF_prefix_40_of_64 Toy.services toy_sha256_size [x01]).
Defined.

(** ** Lengths of slices *)





Lemma starts_04 (data : bytes) :
  bytes_eqb (sl_to data 1) [x04] = true <-> exists rest, data = x04 :: rest.
Proof.
  rewrite bytes_eqb_eq, sl_to_firstn by lia. change (Z.to_nat 1) with 1%nat.
  destruct data as [|b rest]; cbn [firstn].
  - split; [discriminate | intros [r H]; discriminate].
  - split; [intros [= ->]; now exists rest | intros [r [= -> _]]; reflexivity].
Qed.

(** The fields of an ECIES message. *)
Lemma message_fields (pub iv ct tag : bytes) :
  length pub = 64%nat -> length iv = 16%nat -> length tag = 32%nat ->
  let msg := ([x04] ++ pub ++ iv ++ ct) ++ tag in
  sl_to msg 1 = [x04] /\
  sl msg 1 (1 + 64) = pub /\
  sl_from msg (- 32) = tag /\
  sl msg (1 + 64) (- 32) = iv ++ ct /\
  sl msg (1 + 64) (1 + 64 + 16) = iv /\
  sl msg (1 + 64 + 16) (- 32) = ct /\
  length msg = (113 + length ct)%nat.
Proof.
  intros Hp Hi Ht msg.
  assert (Hl : length msg = (113 + length ct)%nat).
  { subst msg. rewrite !length_app, Hp, Hi, Ht. cbn [length]. lia. }
  repeat split; trivial.
  - rewrite sl_to_firstn by lia. reflexivity.
  - rewrite sl_firstn_skipn by lia.
    change (Z.to_nat (1 + 64 - 1)) with 64%nat.
    change (Z.to_nat 1) with 1%nat. subst msg.
    rewrite <- !app_assoc.
    apply (firstn_skipn_exact 1 64 [x04] pub); trivial.
  - rewrite sl_from_end by lia. rewrite Hl.
    change (Z.to_nat (- -32)) with 32%nat. subst msg.
    apply skipn_app_exact. rewrite !length_app, Hp, Hi. cbn [length]. lia.
  - rewrite sl_to_end by lia. rewrite Hl.
    change (Z.to_nat (- -32)) with 32%nat.
    change (Z.to_nat (1 + 64)) with 65%nat. subst msg.
    replace (([x04] ++ pub ++ iv ++ ct) ++ tag)
      with (([x04] ++ pub) ++ (iv ++ ct) ++ tag)
      by (now rewrite <- !app_assoc).
    apply firstn_skipn_exact.
    + rewrite length_app, Hp. reflexivity.
    + rewrite length_app, Hi. lia.
  - rewrite sl_firstn_skipn by lia.
    change (Z.to_nat (1 + 64 + 16 - (1 + 64))) with 16%nat.
    change (Z.to_nat (1 + 64)) with 65%nat. subst msg.
    replace (([x04] ++ pub ++ iv ++ ct) ++ tag)
      with (([x04] ++ pub) ++ iv ++ (ct ++ tag))
      by (now rewrite <- !app_assoc).
    apply firstn_skipn_exact; trivial.
    rewrite length_app, Hp. reflexivity.
  - rewrite sl_to_end by lia. rewrite Hl.
    change (Z.to_nat (- -32)) with 32%nat.
    change (Z.to_nat (1 + 64 + 16)) with 81%nat. subst msg.
    replace (([x04] ++ pub ++ iv ++ ct) ++ tag)
      with (([x04] ++ pub ++ iv) ++ ct ++ tag)
      by (now rewrite <- !app_assoc).
    apply firstn_skipn_exact.
    + rewrite !length_app, Hp, Hi. reflexivity.
    + lia.
Qed.

(** ** Running a computation *)

Lemma Ok_inj {A} (a b : A) : Ok a = Ok b -> a = b.
Proof. now intros [= ->]. Qed.

Lemma ran_with {A W} (x : outcome A * W) (r : outcome A) :
  fst x = r -> x = (r, snd x).
Proof. destruct x. cbn [fst snd]. now intros ->. Qed.

Lemma ran_ok {A W} (a b : A) (w w' : W) :
  (Ok a, w) = (Ok b, w') -> a = b /\ w = w'.
Proof. now intros [= -> ->]. Qed.

(** The calls and the monad operations, unfolded. *)
Ltac unfold_M :=
  unfold ECCx.call_raw_get_ecdh_key, ECCx.call_eciesKDF,
    ECCx.call_sha256, ECCx.call_hmac_sha256, ECCx.call_ciphering,
    ECCx.call_gen_IV, ECCx.massert;
  unfold bind, lift, tell, ret, raise, assert; cbv beta iota.

(** One step of a run whose result is known by the equation [H]. *)
Ltac known H := rewrite H; cbv beta iota zeta.

(** One step of a run that ended well: the step did not raise. *)
Ltac run_step :=
  match goal with
  | |- (match (if ?b then _ else _) with
        | Ok _ => _ | Raise _ => _ | Spin => _ end) = _ -> _ =>
      destruct b eqn:?
  | |- (match ?x with Ok _ => _ | Raise _ => _ | Spin => _ end) = _ -> _ =>
      destruct x eqn:?
  | |- (if ?b then _ else _) _ = _ -> _ => destruct b eqn:?
  end; try discriminate.

(** ** [ECCx.__init__] without arguments: key generation *)

Section KeyGeneration.
Context {SV : Services}.

(** One round of the loop, by the verdict on the key generated. *)
Lemma init_loop_round (fuel : nat) (w : World) :
  ECCx.init_loop (S fuel) None None None None w
  = let (r, g') := ECC_init None None None (entropy w) in
    let w1 := mkWorld g' (trace w ++ [EvECCInit None None None]) in
    match r with
    | Ok e =>
        match verdict e with
        | Ok true => (Ok e, w1)
        | Ok false => ECCx.init_loop fuel None None None None w1
        | Raise x => (Raise x, w1)
        | Spin => (Spin, w1)
        end
    | Raise x => (Raise x, w1)
    | Spin => (Spin, w1)
    end.
Proof.
  cbn [ECCx.init_loop]. unfold bind at 1. unfold ECCx.call_ECC_init at 1.
  unfold bind at 1. unfold tell at 1. cbn [entropy trace].
  destruct (ECC_init None None None (entropy w)) as [r g'].
  destruct r as [e | x |]; try reflexivity.
  unfold verdict, ECCx.raw_privkey.
  destruct (privkey e) as [[|b k]|] eqn:Ek; cbn [ECCx.truthy andb orb].
  - unfold bind, except_AssertionError, ret, bind.
    destruct (len (ECCx.raw_pubkey e) =? 64); reflexivity.
  - destruct (len (b :: k) =? 32) eqn:E32; cbn [negb]; [|reflexivity].
    unfold bind, except_AssertionError, ret, bind, lift.
    destruct (get_privkey_format (b :: k)) as [[] | [] |]; try reflexivity.
    + destruct (len (ECCx.raw_pubkey e) =? 64); reflexivity.
    + destruct (len (ECCx.raw_pubkey e) =? 64); reflexivity.
  - unfold bind, except_AssertionError, ret, bind.
    destruct (len (ECCx.raw_pubkey e) =? 64); reflexivity.
Qed.

Lemma init_fresh (fuel : nat) (w : World) :
  ECCx.__init__ fuel None None w
  = match ECCx.init_loop fuel None None None None w with
    | (Ok self, w') =>
        if len (ECCx.raw_pubkey self) =? 64 then (Ok self, w')
        else (Raise AssertionError, w')
    | (Raise x, w') => (Raise x, w')
    | (Spin, w') => (Spin, w')
    end.
Proof.
  unfold ECCx.__init__, bind, ret, ECCx.massert, lift, assert.
  change (ECCx.truthy None) with false. cbv beta iota.
  change (ECCx.truthy None) with false. cbv beta iota. cbn [fst snd].
  destruct (ECCx.init_loop fuel None None None None w) as [[e | x |] w'];
    try reflexivity.
  destruct (len (ECCx.raw_pubkey e) =? 64); reflexivity.
Qed.

(** What the loop has checked on a key it lets through. *)
Lemma verdict_accept (e : ECC) :
  verdict e = Ok true ->
  len (ECCx.raw_pubkey e) = 64 /\
  forall k, privkey e = Some k -> k <> [] ->
            len k = 32 /\ get_privkey_format k = Ok tt.
Proof.
  unfold verdict. destruct (privkey e) as [[|b k]|].
  - intros [= H]. split; [lia|]. intros k [= <-] Hk. now destruct Hk.
  - destruct (len (b :: k) =? 32) eqn:E; [|discriminate].
    destruct (get_privkey_format (b :: k)) as [[] | [] |] eqn:F;
      try discriminate.
    intros [= H]. split; [lia|]. intros k' [= <-] _. split; [lia|exact F].
  - intros [= H]. split; [lia|]. discriminate.
Qed.

Lemma init_loop_ok (fuel : nat) :
  forall (w w' : World) (e : ECC),
    ECCx.init_loop fuel None None None None w = (Ok e, w') ->
    verdict e = Ok true /\
    exists g g', ECC_init None None None g = (Ok e, g').
Proof.
  induction fuel as [|fuel IH]; intros w w' e; [discriminate|].
  rewrite init_loop_round.
  destruct (ECC_init None None None (entropy w)) as [[e1 | x |] g'] eqn:Eg;
    cbv zeta; try discriminate.
  destruct (verdict e1) as [[|] | x |] eqn:Ev; try discriminate.
  - intros H. apply ran_ok in H. destruct H as [<- _].
    split; [exact Ev|]. now exists (entropy w), g'.
  - apply IH.
Qed.

(** While the keys are sent back the loop goes on: it does not raise. *)
Lemma init_loop_rejected (n : nat) :
  forall (fuel : nat) (w : World),
    all_rejected n (entropy w) -> (fuel <= n)%nat ->
    result (ECCx.init_loop fuel None None None None) w = Spin.
Proof.
  induction n as [|n IH]; intros fuel w Hr Hf.
  - assert (fuel = O) by lia. subst. reflexivity.
  - destruct fuel as [|fuel]; [reflexivity|].
    unfold result. rewrite init_loop_round.
    destruct Hr as (e & g' & Eg & Ev & Hr). rewrite Eg. cbv zeta.
    rewrite Ev. apply IH; [exact Hr | lia].
Qed.

(** The loop returns the first key that is not sent back. *)
Lemma init_loop_accepted (n : nat) :
  forall (fuel : nat) (w : World) (e : ECC),
    accepted_after n (entropy w) e -> (n < fuel)%nat ->
    result (ECCx.init_loop fuel None None None None) w = Ok e.
Proof.
  induction n as [|n IH]; intros fuel w e Ha Hf;
    (destruct fuel as [|fuel]; [lia|]); unfold result;
    rewrite init_loop_round.
  - destruct Ha as (g' & Eg & Ev). rewrite Eg. cbv zeta. now rewrite Ev.
  - destruct Ha as (e0 & g' & Eg & Ev & Ha). rewrite Eg. cbv zeta.
    rewrite Ev. apply IH; [exact Ha | lia].
Qed.

Lemma init_fresh_result (fuel : nat) (w : World) :
  (forall e, result (ECCx.init_loop fuel None None None None) w = Ok e ->
             verdict e = Ok true) ->
  result (ECCx.__init__ fuel None None) w
  = result (ECCx.init_loop fuel None None None None) w.
Proof.
  unfold result. rewrite init_fresh.
  destruct (ECCx.init_loop fuel None None None None w) as [[e | x |] w'];
    cbn [fst]; intros H; try reflexivity.
  destruct (verdict_accept e (H e eq_refl)) as [H64 _].
  apply Z.eqb_eq in H64. now rewrite H64.
Qed.

End KeyGeneration.

Section FreshKeys.
Context {SV : Services}.

Lemma init_rejected (n fuel : nat) (w : World) :
  all_rejected n (entropy w) -> (fuel <= n)%nat ->
  result (ECCx.__init__ fuel None None) w = Spin.
Proof.
  intros Hr Hf. rewrite init_fresh_result.
  - now apply (init_loop_rejected n).
  - intros e. rewrite (init_loop_rejected n) by assumption. discriminate.
Qed.

Lemma init_accepted (n fuel : nat) (w : World) (e : ECC) :
  accepted_after n (entropy w) e -> (n < fuel)%nat ->
  result (ECCx.__init__ fuel None None) w = Ok e.
Proof.
  intros Ha Hf. rewrite init_fresh_result.
  - now apply (init_loop_accepted n).
  - intros e'. unfold result.
    destruct (ECCx.init_loop fuel None None None None w) as [r w'] eqn:El.
    cbn [fst]. intros ->. now apply init_loop_ok in El.
Qed.

Lemma init_ok_valid (fuel : nat) (w w' : World) (e : ECC) :
  ECCx.__init__ fuel None None w = (Ok e, w') ->
  verdict e = Ok true /\
  exists g g', ECC_init None None None g = (Ok e, g').
Proof.
  rewrite init_fresh.
  destruct (ECCx.init_loop fuel None None None None w) as [[e' | x |] w1]
    eqn:El; try discriminate.
  destruct (len (ECCx.raw_pubkey e') =? 64); [|discriminate].
  intros H. apply ran_ok in H. destruct H as [-> ->].
  now apply init_loop_ok in El.
Qed.

End FreshKeys.

Lemma toy_stuck_rejected (n : nat) : @all_rejected Toy.services n Toy.stuck.
Proof.
  induction n as [|n IH]; cbn [all_rejected]; trivial.
  eexists. eexists. split; [reflexivity|]. split; [reflexivity|]. exact IH.
Qed.

(** C8, as the claim states it, fails: with a random source whose keys are
    all too short, key generation does not fail, however many rounds it is
    given; it is still retrying. *)
Lemma keygen_gives_up_counterexample :
  ~ exists (fuel : nat) (x : exn),
      result (@ECCx.__init__ Toy.services fuel None None)
             (Toy.world Toy.stuck) = Raise x.
Proof.
  intros (fuel & x & H).
  rewrite (init_rejected fuel fuel) in H; [discriminate| |lia].
  apply toy_stuck_rejected.
Qed.

(** C8, amended: fresh key generation retries while the key generated is
    invalid, and there is no bound on the retries.  As long as the keys are
    sent back it is still running and has raised nothing; it returns the
    first key that passes the checks; and a key it returns has a public key
    of 64 bytes and a private key of 32 bytes that passed the format
    check. *)
Theorem keygen_retries_without_bound {SV : Services} :
  (forall (n fuel : nat) (w : World),
      all_rejected n (entropy w) -> (fuel <= n)%nat ->
      result (ECCx.__init__ fuel None None) w = Spin) /\
  (forall (n fuel : nat) (w : World) (e : ECC),
      accepted_after n (entropy w) e -> (n < fuel)%nat ->
      result (ECCx.__init__ fuel None None) w = Ok e) /\
  (forall (fuel : nat) (w w' : World) (e : ECC),
      ECCx.__init__ fuel None None w = (Ok e, w') ->
      len (ECCx.raw_pubkey e) = 64 /\
      forall k, privkey e = Some k -> k <> [] ->
                len k = 32 /\ get_privkey_format k = Ok tt).
Proof.
  split; [exact init_rejected|]. split; [exact init_accepted|].
  intros fuel w w' e H. apply init_ok_valid in H.
  apply verdict_accept. apply H.
Qed.

Lemma keygen_retries_without_bound_witness :
  result (@ECCx.__init__ Toy.services 2 None None) (Toy.world Toy.slow) = Spin
  /\ exists e,
      result (@ECCx.__init__ Toy.services 3 None None) (Toy.world Toy.slow)
      = Ok e /\
      len (ECCx.raw_pubkey e) = 64.
Proof.
  destruct (@keygen_retries_without_bound Toy.services) as (H1 & H2 & H3).
  split.
  - apply (H1 2%nat 2%nat (Toy.world Toy.slow)); [|apply le_n].
    cbn [all_rejected].
    eexists. eexists. split; [reflexivity|]. split; [reflexivity|].
    eexists. eexists. split; [reflexivity|]. split; [reflexivity|].
    exact I.
  - eexists. split.
    + apply (H2 2%nat 3%nat (Toy.world Toy.slow)); [|apply le_n].
      cbn [accepted_after].
      eexists. eexists. split; [reflexivity|]. split; [reflexivity|].
      eexists. eexists. split; [reflexivity|]. split; [reflexivity|].
      eexists. split; [reflexivity|]. vm_compute. reflexivity.
    + vm_compute. reflexivity.
Defined.

(** ** ECIES decryption *)

Section Decrypt.
Context {SV : Services}.



End Decrypt.

(** C4: a message that does not start with the byte 0x04 is refused with
    [ECIESDecryptionError], and the world is left as it was: no ECDH, KDF,
    hash, MAC or cipher call has been made. *)
Theorem bad_header_rejected_first {SV : Services}
        (self : ECC) (data smd : bytes) (w : World) :
  (forall rest, data <> x04 :: rest) ->
  ECCx.ecies_decrypt self data smd w
  = (Raise (ECIESDecryptionError "wrong ecies header"), w) /\
  events (ECCx.ecies_decrypt self data smd) w = [].
Proof.
  intros H. unfold events, ECCx.ecies_decrypt.
  destruct (bytes_eqb (sl_to data 1) [x04]) eqn:E.
  - apply starts_04 in E. destruct E as [r ->]. now destruct (H r).
  - cbn [negb raise snd]. split; [reflexivity|]. apply skipn_all.
Qed.




(** ** The round trip of ECIES *)

Section RoundTrip.
Context {SV : Services} {L : Laws}.

Lemma pubkey_halves (e : ECC) :
  length (pubkey_x e) = 32%nat ->
  sl_to (ECCx.raw_pubkey e) 32 = pubkey_x e /\
  sl_from (ECCx.raw_pubkey e) 32 = pubkey_y e.
Proof.
  intros Hx. unfold ECCx.raw_pubkey.
  rewrite sl_to_firstn, sl_from_skipn by lia.
  change (Z.to_nat 32) with 32%nat.
  now rewrite firstn_app_exact, skipn_app_exact.
Qed.

(** A generated key that left the loop is a key pair with two coordinates
    of 32 bytes. *)
Lemma init_fresh_ok (fuel : nat) (w w1 : World) (e : ECC) :
  ECCx.__init__ fuel None None w = (Ok e, w1) ->
  constructed e /\ ECCx.truthy (privkey e) = true /\
  length (pubkey_x e) = 32%nat /\ length (pubkey_y e) = 32%nat.
Proof.
  intros H. apply init_ok_valid in H. destruct H as [Hv (g & g' & Eg)].
  apply verdict_accept in Hv. destruct Hv as [E64 _].
  assert (C : constructed e) by (now exists None, None, None, g, g').
  split; [exact C|]. split; [exact (generated_privkey _ _ _ Eg)|].
  destruct (coordinate_size _ _ _ Eg) as [Hx Hy].
  unfold ECCx.raw_pubkey, len in E64. rewrite length_app in E64.
  split; lia.
Qed.

Lemma ecies_roundtrip_run (fuel : nat) (p : bytes) (K e : ECC) (w w1 : World) :
  valid_keypair K ->
  ECCx.__init__ fuel None None w = (Ok e, w1) ->
  exists msg w2,
    ECCx.ecies_encrypt fuel p (ECCx.raw_pubkey K) [] w = (Ok msg, w2) /\
    length msg = (113 + length p)%nat /\
    forall w3, result (ECCx.ecies_decrypt K msg []) w3 = Ok p.
Proof.
  intros (CK & PK & XK & YK) Hinit.
  destruct (init_fresh_ok _ _ _ _ Hinit) as (Ce & Pe & Xe & Ye).
  destruct (ecdh_agreement e K Ce CK Pe PK Xe Ye XK YK) as (z & Lz & Ze & ZK).
  destruct (pubkey_halves K XK) as [HKx HKy].
  destruct (pubkey_halves e Xe) as [Hex Hey].
  destruct (eciesKDF_first_block sha256_size z 32 ltac:(lia)) as [Ekdf Lkey].
  change (Z.to_nat 32) with 32%nat in *.
  set (key := firstn 32 (sha256 (be32 1 ++ z ++ []))) in *.
  set (key_enc := sl_to key 16). set (key_mac := sha256 (sl_from key 16)).
  destruct (gen_IV (entropy w1)) as [iv g2] eqn:Eiv.
  assert (Liv : length iv = 16%nat).
  { pose proof (gen_IV_size (entropy w1)) as H. now rewrite Eiv in H. }
  set (ct := ciphering key_enc iv 1 p).
  assert (Lct : length ct = length p) by apply ciphering_size.
  set (msg0 := [x04] ++ ECCx.raw_pubkey e ++ iv ++ ct).
  set (tag := hmac_sha256 key_mac (sl_from msg0 (1 + 64) ++ [])).
  assert (Ltag : length tag = 32%nat) by apply hmac_sha256_size.
  assert (Lpub : length (ECCx.raw_pubkey e) = 64%nat).
  { unfold ECCx.raw_pubkey. rewrite length_app. lia. }
  destruct (message_fields (ECCx.raw_pubkey e) iv ct tag Lpub Liv Ltag)
    as (F1 & F2 & F3 & F4 & F5 & F6 & F7).
  fold msg0 in F1, F2, F3, F4, F5, F6, F7.
  assert (Hbody : sl_from msg0 (1 + 64) = iv ++ ct).
  { rewrite sl_from_skipn by lia. change (Z.to_nat (1 + 64)) with 65%nat.
    subst msg0. rewrite app_assoc. apply skipn_app_exact.
    rewrite length_app, Lpub. reflexivity. }
  assert (E2 : (len z =? 32) = true) by (apply Z.eqb_eq; unfold len; lia).
  assert (E3 : (len key =? 32) = true) by (now apply Z.eqb_eq).
  assert (E4 : (len key_mac =? 32) = true).
  { unfold len, key_mac. rewrite sha256_size. reflexivity. }
  assert (E5 : (len iv =? 16) = true) by (apply Z.eqb_eq; unfold len; lia).
  assert (E7 : (len tag =? 32) = true) by (apply Z.eqb_eq; unfold len; lia).
  exists (msg0 ++ tag). eexists. split; [|split; [rewrite F7; lia|]].
  - unfold ECCx.ecies_encrypt. unfold bind at 1. known Hinit.
    unfold_M. rewrite HKx, HKy. known Ze. known E2. known Ekdf. known E3.
    fold key_enc key_mac. known E4. cbn [entropy trace]. known Eiv.
    known E5. fold ct.
    assert (E6 : (len ct =? len p) = true)
      by (apply Z.eqb_eq; unfold len; lia).
    known E6. fold msg0. fold tag. known E7.
    assert (E8 : ((len (msg0 ++ tag) =? 1 + 64 + 16 + 32 + len p)
                  && (1 + 64 + 16 + 32 + len p =? 113 + len p)) = true).
    { unfold len. rewrite F7, Lct. apply andb_true_iff.
      split; apply Z.eqb_eq; lia. }
    known E8.
    assert (E9 : (len (msg0 ++ tag) - ECCx.ecies_encrypt_overhead_length
                  =? len p) = true).
    { unfold len, ECCx.ecies_encrypt_overhead_length. rewrite F7, Lct.
      apply Z.eqb_eq; lia. }
    known E9. reflexivity.
  - intros w3. unfold result, ECCx.ecies_decrypt.
    assert (E1 : negb (bytes_eqb (sl_to (msg0 ++ tag) 1) [x04]) = false).
    { rewrite F1, bytes_eqb_refl. reflexivity. }
    known E1. unfold_M. rewrite !F2, Hex, Hey. known ZK. known E2.
    known Ekdf. known E3. fold key_enc key_mac. known E4.
    rewrite !F3, !F4. known E7.
    assert (E6 : negb (equals (hmac_sha256 key_mac ((iv ++ ct) ++ [])) tag)
                 = false).
    { unfold tag, equals. rewrite Hbody, bytes_eqb_refl. reflexivity. }
    known E6. rewrite get_blocksize_16, F5, F6. known E5.
    assert (E8 : (1 + len (ECCx.raw_pubkey e) + len iv + len ct + len tag
                  =? len (msg0 ++ tag)) = true).
    { unfold len. rewrite F7, Lpub, Liv, Ltag. apply Z.eqb_eq; lia. }
    known E8. cbn [fst]. f_equal. apply ciphering_inverse.
Qed.

End RoundTrip.

(** C1: for every plaintext [p] and every valid recipient key pair [K],
    whenever the generation of the ephemeral key returns (the loop of
    [ECCx.__init__] has no bound, and returns as soon as the random source
    gives a valid key), [ecies_encrypt p K.pub64] returns a message of
    [113 + len p] bytes, and [ecies_decrypt] of that message with [K],
    both with the empty [shared_mac_data], returns exactly [p]. *)
Theorem ecies_decrypt_encrypt {SV : Services} {L : Laws}
        (n fuel : nat) (p : bytes) (K e : ECC) (w : World) :
  valid_keypair K ->
  accepted_after n (entropy w) e -> (n < fuel)%nat ->
  exists msg w2,
    ECCx.ecies_encrypt fuel p (ECCx.raw_pubkey K) [] w = (Ok msg, w2) /\
    length msg = (113 + length p)%nat /\
    forall w3, result (ECCx.ecies_decrypt K msg []) w3 = Ok p.
Proof.
  intros HK Ha Hf.
  pose proof (init_accepted n fuel w e Ha Hf) as Hinit.
  unfold result in Hinit.
  destruct (ECCx.__init__ fuel None None w) as [r w1] eqn:Ei.
  cbn [fst] in Hinit. subst r.
  exact (ecies_roundtrip_run fuel p K e w w1 HK Ei).
Qed.

(** ** The small instance satisfies the laws *)

Lemma encode_nonempty (val : Z) : 0 < val -> bitcoin_encode val <> [].
Proof.
  intros Hv E. pose proof (decode_encode val ltac:(lia)) as H.
  rewrite E in H. cbv in H. lia.
Qed.

Lemma toy_p_bound : 0 < Toy.p < 2 ^ 256.
Proof. unfold Toy.p. split; reflexivity. Qed.

Lemma toy_coord_length (v : Z) :
  (length (bitcoin_encode (v mod Toy.p)) <= 32)%nat.
Proof.
  apply encode_length. change (256 ^ Z.of_nat 32) with (2 ^ 256).
  pose proof (Z.mod_pos_bound v Toy.p (proj1 toy_p_bound)).
  pose proof toy_p_bound. lia.
Qed.

Lemma toy_ciphering_inverse (k iv p : bytes) :
  Toy.ciphering k iv 0 (Toy.ciphering k iv 1 p) = p.
Proof.
  unfold Toy.ciphering. rewrite map_map.
  change (0 =? 1) with false. change (1 =? 1) with true. cbv beta iota.
  set (ks := bitcoin_decode k + bitcoin_decode iv).
  induction p as [|b p IH]; cbn [map]; [reflexivity|]. rewrite IH. f_equal.
  rewrite safe_ord_byte_of_Z, <- byte_of_Z_mod, Zminus_mod_idemp_l.
  replace (safe_ord b + ks - ks) with (safe_ord b) by lia.
  rewrite byte_of_Z_mod. apply byte_of_Z_safe_ord.
Qed.

Lemma toy_gen_IV_size (g : Toy.rng) : length (fst (Toy.gen_IV g)) = 16%nat.
Proof.
  unfold Toy.gen_IV, Toy.draw. cbn [fst].
  rewrite length_skipn, lzpad32_encode_length; [reflexivity|].
  pose proof (Z.mod_pos_bound (Toy.next g) (2 ^ 128) eq_refl).
  assert (2 ^ 128 < 2 ^ 256) by reflexivity. lia.
Qed.

Lemma toy_generated_key (v : Z) :
  0 < 1 + v mod (Toy.p - 1).
Proof.
  assert (0 < Toy.p - 1) by reflexivity.
  pose proof (Z.mod_pos_bound v (Toy.p - 1) H). lia.
Qed.

Lemma toy_constructed_sound (e : ECC) :
  @constructed Toy.services e -> Toy.sound e.
Proof.
  intros (x & y & k & g & g' & H).
  change (Toy.ECC_init x y k g = (Ok e, g')) in H. unfold Toy.ECC_init in H.
  assert (Gen : forall v,
             Toy.sound (mkECC (Some (bitcoin_encode (1 + v mod (Toy.p - 1))))
                              (fst (Toy.pub_of (1 + v mod (Toy.p - 1))))
                              (snd (Toy.pub_of (1 + v mod (Toy.p - 1)))))).
  { intros v. pose proof (toy_generated_key v) as Hk.
    remember (1 + v mod (Toy.p - 1)) as K eqn:EK. clear EK.
    unfold Toy.sound, Toy.pub_of. cbn [fst snd pubkey_x pubkey_y privkey].
    split; [apply toy_coord_length|]. split; [apply toy_coord_length|].
    intros k0 Hk0. assert (k0 = bitcoin_encode K) by congruence. subst k0.
    rewrite !decode_encode; trivial; try lia.
    apply Z.mod_pos_bound. reflexivity. }
  destruct x as [x|], y as [y|];
    try (unfold Toy.draw in H; cbv zeta in H; apply ran_ok in H;
         destruct H as [<- _]; apply Gen).
  destruct ((len x <=? 32) && (len y <=? 32)
            && match k with
               | Some kb => Toy.consistent kb x y
               | None => true
               end) eqn:E; [|discriminate].
  apply ran_ok in H. destruct H as [<- _].
  apply andb_true_iff in E. destruct E as [E Ec].
  apply andb_true_iff in E. destruct E as [Ex Ey].
  unfold Toy.sound. cbn [pubkey_x pubkey_y privkey]. unfold len in *.
  split; [lia|]. split; [lia|].
  intros k0 ->. unfold Toy.consistent in Ec.
  apply andb_true_iff in Ec. destruct Ec as [Ec _]. now apply Z.eqb_eq in Ec.
Qed.

Lemma toy_ecdh (a b : ECC) :
  Toy.sound a -> Toy.sound b ->
  ECCx.truthy (privkey a) = true -> ECCx.truthy (privkey b) = true ->
  exists z, length z = 32%nat /\
            Toy.raw_get_ecdh_key a (pubkey_x b) (pubkey_y b) = Ok z /\
            Toy.raw_get_ecdh_key b (pubkey_x a) (pubkey_y a) = Ok z.
Proof.
  intros (_ & _ & Sa) (_ & _ & Sb) Pa Pb. unfold Toy.raw_get_ecdh_key.
  destruct (privkey a) as [[|ca ka]|] eqn:Ea; try discriminate.
  destruct (privkey b) as [[|cb kb]|] eqn:Eb; try discriminate.
  rewrite (Sa _ eq_refl), (Sb _ eq_refl).
  set (x := bitcoin_decode (ca :: ka)). set (y := bitcoin_decode (cb :: kb)).
  assert (E : (x * ((y * Toy.gx) mod Toy.p)) mod Toy.p
              = (y * ((x * Toy.gx) mod Toy.p)) mod Toy.p).
  { rewrite !Z.mul_mod_idemp_r by discriminate. f_equal. ring. }
  rewrite <- E. eexists. split; [|split; reflexivity].
  apply lzpad32_encode_length.
  pose proof (Z.mod_pos_bound (x * ((y * Toy.gx) mod Toy.p)) Toy.p
                              (proj1 toy_p_bound)).
  pose proof toy_p_bound. lia.
Qed.

Lemma toy_laws : @Laws Toy.services.
Proof.
  constructor.
  - exact toy_sha256_size.
  - intros k m. apply toy_sha256_size.
  - intros k iv d p. apply length_map.
  - exact toy_ciphering_inverse.
  - reflexivity.
  - exact toy_gen_IV_size.
  - intros g g' e H.
    change (Toy.ECC_init None None None g = (Ok e, g')) in H.
    unfold Toy.ECC_init, Toy.draw in H. cbv zeta in H.
    pose proof (toy_generated_key (Toy.next g)) as Hk.
    remember (1 + Toy.next g mod (Toy.p - 1)) as K eqn:EK.
    clear EK. apply ran_ok in H. destruct H as [<- _]. cbn [privkey].
    apply encode_nonempty in Hk.
    destruct (bitcoin_encode K); [now destruct Hk | reflexivity].
  - intros g g' e H.
    assert (C : @constructed Toy.services e)
      by (now exists None, None, None, g, g').
    apply toy_constructed_sound in C. split; apply C.
  - intros a b Ca Cb Pa Pb _ _ _ _.
    apply toy_ecdh; trivial; now apply toy_constructed_sound.
Qed.

Lemma toy_recipient_valid : @valid_keypair Toy.services Toy.recipient.
Proof.
  split; [|repeat split].
  exists (Some (pubkey_x Toy.recipient)), (Some (pubkey_y Toy.recipient)),
    (privkey Toy.recipient), Toy.fair, Toy.fair.
  vm_compute. reflexivity.
Qed.

Lemma ecies_decrypt_encrypt_witness :
  exists msg w2,
    @ECCx.ecies_encrypt Toy.services 1 Toy.hello
      (ECCx.raw_pubkey Toy.recipient) [] (Toy.world Toy.fair) = (Ok msg, w2) /\
    length msg = (113 + length Toy.hello)%nat /\
    forall w3,
      result (@ECCx.ecies_decrypt Toy.services Toy.recipient msg []) w3
      = Ok Toy.hello.
Proof.
  eapply (@ecies_decrypt_encrypt Toy.services toy_laws 0 1 Toy.hello
            Toy.recipient _ (Toy.world Toy.fair)).
  - exact toy_recipient_valid.
  - cbn [accepted_after]. eexists. split; [reflexivity|].
    vm_compute. reflexivity.
  - apply le_n.
Defined.

Lemma bad_header_rejected_first_witness :
  @ECCx.ecies_decrypt Toy.services Toy.recipient [x05; x01] []
    (Toy.world Toy.fair)
  = (Raise (ECIESDecryptionError "wrong ecies header"), Toy.world Toy.fair) /\
  events (@ECCx.ecies_decrypt Toy.services Toy.recipient [x05; x01] [])
         (Toy.world Toy.fair) = [].
Proof.
  apply (@bad_header_rejected_first Toy.services).
  intros rest H. discriminate H.
Defined.



(** ** ECDSA verification *)

(** C3, as the claim states it, fails: [ecdsa_verify] has no handler, so
    what the curve library raises on a malformed signature comes out of
    it, here for the empty signature; and whatever the library does, a
    public key that is not 64 bytes long raises [AssertionError]. *)
Lemma ecdsa_verify_raises_counterexample :
  @ecdsa_verify Toy.services (repeat x00 64) [] (repeat x00 32)
  = Raise ValueError /\
  (forall (SV : Services) (sig msg : bytes),
      @ecdsa_verify SV [] sig msg = Raise AssertionError).
Proof.
  split; [vm_compute; reflexivity|]. intros SV sig msg. reflexivity.
Qed.

(** C3, amended: [ecdsa_verify] raises [AssertionError] when the public key
    is not 64 bytes long, and lets through what the curve library raises
    when the signature is malformed or the recovery fails; when the
    recovery succeeds it returns true if and only if the uncompressed
    encoding of the recovered key is 0x04 followed by [pubkey], that is, if
    and only if its raw 64-byte encoding is [pubkey]. *)
Theorem ecdsa_verify_outcome {SV : Services} (pubkey sig msg : bytes) :
  (len pubkey <> 64 -> ecdsa_verify pubkey sig msg = Raise AssertionError) /\
  (len pubkey = 64 ->
   forall x, from_signature_and_message sig msg = Raise x ->
             ecdsa_verify pubkey sig msg = Raise x) /\
  (len pubkey = 64 ->
   forall pk, from_signature_and_message sig msg = Ok pk ->
     ecdsa_verify pubkey sig msg = Ok (bytes_eqb pk ([x04] ++ pubkey)) /\
     (ecdsa_verify pubkey sig msg = Ok true <-> pk = x04 :: pubkey) /\
     (forall raw, pk = x04 :: raw ->
                  (ecdsa_verify pubkey sig msg = Ok true <-> raw = pubkey))).
Proof.
  unfold ecdsa_verify, assert.
  destruct (len pubkey =? 64) eqn:E; cbn [obind].
  - apply Z.eqb_eq in E. split; [intros H; now destruct H|].
    split; [intros _ x Hx; now rewrite Hx|].
    intros _ pk Hpk. rewrite Hpk. cbn [obind app].
    split; [reflexivity|].
    assert (Hiff : Ok (bytes_eqb pk (x04 :: pubkey)) = Ok true
                   <-> pk = x04 :: pubkey).
    { rewrite <- bytes_eqb_eq. split; [apply Ok_inj | now intros ->]. }
    split; [exact Hiff|].
    intros raw ->. rewrite Hiff. split; [now intros [= ->] | now intros ->].
  - apply Z.eqb_neq in E. split; [reflexivity|].
    split; intros H; now destruct E.
Qed.

Lemma ecdsa_verify_outcome_witness :
  @ecdsa_verify Toy.services (repeat x00 64) (repeat x00 65) (repeat x00 32)
  = Ok true.
Proof.
  destruct (@ecdsa_verify_outcome Toy.services (repeat x00 64)
              (repeat x00 65) (repeat x00 32)) as (_ & _ & H).
  destruct (H eq_refl (x04 :: repeat x00 64) eq_refl) as (_ & H2 & _).
  apply H2. reflexivity.
Defined.

(** * Further properties *)

(** ** More on the base-256 writing *)







(** X2: [_decode_sig] checks no length.  Up to 64 bytes the access
    [sig[64]] raises [IndexError]; from 65 bytes on it returns the byte at
    offset 64 plus 27 and the numbers of the first two blocks of 32 bytes,
    and whatever follows the 65 bytes is ignored. *)
Theorem decode_sig_by_length (sig : bytes) :
  ((length sig <= 64)%nat -> _decode_sig sig = Raise IndexError) /\
  ((65 <= length sig)%nat ->
   (exists c, nth_error sig 64 = Some c /\
              _decode_sig sig
              = Ok (safe_ord c + 27, bitcoin_decode (firstn 32 sig),
                    bitcoin_decode (firstn 32 (skipn 32 sig)))) /\
   forall extra, _decode_sig (sig ++ extra) = _decode_sig sig).
Proof.
  assert (Long : forall l : bytes, (65 <= length l)%nat ->
            exists c, nth_error l 64 = Some c /\
                      _decode_sig l
                      = Ok (safe_ord c + 27, bitcoin_decode (firstn 32 l),
                            bitcoin_decode (firstn 32 (skipn 32 l)))).
  { intros l Hl. unfold _decode_sig, index.
    destruct (nth_error l 64) as [c|] eqn:E;
      [|apply nth_error_None in E; lia].
    exists c. split; trivial. cbn [obind].
    rewrite !sl_firstn_skipn by lia. reflexivity. }
  split.
  - intros Hl. unfold _decode_sig, index.
    destruct (nth_error sig 64) as [c|] eqn:E; [|reflexivity].
    assert (nth_error sig 64 <> None) by congruence.
    apply nth_error_Some in H. lia.
  - intros Hl. split; [now apply Long|]. intros extra.
    destruct (Long sig Hl) as (c & Hc & ->).
    destruct (Long (sig ++ extra)) as (c' & Hc' & ->);
      [rewrite length_app; lia|].
    rewrite nth_error_app1 in Hc' by lia.
    assert (c' = c) by congruence. subst c'.
    rewrite firstn_app, skipn_app.
    replace (32 - length sig)%nat with 0%nat by lia.
    rewrite firstn_O, skipn_O, app_nil_r.
    rewrite firstn_app, length_skipn.
    replace (32 - (length sig - 32))%nat with 0%nat by lia.
    now rewrite firstn_O, app_nil_r.
Qed.




(** ** More on the KDF *)

Section MoreKDF.
Context {SV : Services}.
Hypothesis sha256_32 : forall x, length (sha256 x) = 32%nat.

Lemma exact_range (n : Z) :
  0 <= n ->
  (n <= 32 * ((n + 7) / 64 + 1) <-> n <= 32 \/ 57 <= n <= 64).
Proof.
  intros Hn. pose proof (Z.div_mod (n + 7) 64 ltac:(lia)) as Hd.
  pose proof (Z.mod_pos_bound (n + 7) 64 ltac:(lia)) as Hm.
  set (q := (n + 7) / 64) in *. set (m := (n + 7) mod 64) in *.
  split; intros H; lia.
Qed.

Lemma kdf_blocks_app (secret : bytes) (a b : nat) (i : Z) :
  kdf_blocks secret (a + b) i
  = kdf_blocks secret a i ++ kdf_blocks secret b (i + Z.of_nat a).
Proof.
  revert i. induction a as [|a IH]; intros i.
  - cbn [kdf_blocks Nat.add app]. now rewrite Z.add_0_r.
  - cbn [kdf_blocks Nat.add]. rewrite IH, <- app_assoc. do 3 f_equal. lia.
Qed.

(** X5: the length of the key for every [key_len] the counter allows: the
    code makes [(key_len + 7) / 64 + 1] rounds of 32 bytes and cuts at
    [key_len], so the key has [key_len] bytes exactly when [key_len <= 32]
    or [57 <= key_len <= 64], and is shorter otherwise. *)
Theorem eciesKDF_output_length (secret : bytes) (key_len : Z) :
  0 <= key_len < 2 ^ 37 ->
  exists key,
    eciesKDF secret key_len = Ok key /\
    len key = Z.min key_len (32 * ((key_len + 7) / 64 + 1)) /\
    (len key = key_len <-> key_len <= 32 \/ 57 <= key_len <= 64).
Proof.
  intros Hk.
  destruct (eciesKDF_length sha256_32 secret key_len Hk) as (key & E & L).
  exists key. split; [exact E|]. split; [exact L|].
  rewrite <- exact_range by lia. rewrite L. lia.
Qed.

(** X6: where the shorter key has its full length, it is the beginning of
    every longer key from the same secret. *)
Theorem eciesKDF_prefix_stable (secret : bytes) (m n : Z) :
  0 <= m <= n -> n < 2 ^ 37 -> m <= 32 \/ 57 <= m <= 64 ->
  exists kn km,
    eciesKDF secret n = Ok kn /\ eciesKDF secret m = Ok km /\
    sl_to kn m = km.
Proof.
  intros Hmn Hn Hm. apply exact_range in Hm; [|lia].
  rewrite (eciesKDF_blocks secret n), (eciesKDF_blocks secret m) by lia.
  do 2 eexists. split; [reflexivity|]. split; [reflexivity|].
  rewrite sl_to_firstn by lia. rewrite firstn_firstn.
  replace (Init.Nat.min (Z.to_nat m) (Z.to_nat n)) with (Z.to_nat m) by lia.
  assert (0 <= (m + 7) / 64) by (apply Z.div_pos; lia).
  assert ((m + 7) / 64 <= (n + 7) / 64) by (apply Z.div_le_mono; lia).
  set (M := Z.to_nat ((m + 7) / 64 + 1)).
  replace (Z.to_nat ((n + 7) / 64 + 1))
    with (M + (Z.to_nat ((n + 7) / 64 + 1) - M))%nat by lia.
  rewrite kdf_blocks_app, firstn_app, kdf_blocks_length by assumption.
  replace (Z.to_nat m - 32 * M)%nat with 0%nat by lia.
  now rewrite firstn_O, app_nil_r.
Qed.

(** X7: for lengths up to 32 and from 57 to 64, among them the 32 bytes
    that [ecies_encrypt] and [ecies_decrypt] ask for, the loop of the code
    and the loop that runs until enough bytes exist give the same key. *)
Theorem eciesKDF_agrees_with_spec (secret : bytes) (n : Z) :
  0 <= n <= 32 \/ 57 <= n <= 64 ->
  eciesKDF secret n = Ok (spec_kdf secret n).
Proof.
  intros Hn. rewrite eciesKDF_blocks by lia. unfold spec_kdf.
  destruct (Z.eq_dec n 0) as [-> | Hn0]; [reflexivity|]. do 2 f_equal.
  destruct (Z.to_nat n) as [|f] eqn:Ef; [lia|].
  assert (L0 : len (@nil byte) < n) by (unfold len; cbn; lia).
  rewrite spec_blocks_step by exact L0. cbn [app].
  assert (L1 : len (sha256 (be32 1 ++ secret)) = 32)
    by (unfold len; now rewrite sha256_32).
  destruct Hn as [Hn | Hn].
  - replace ((n + 7) / 64) with 0 by (symmetry; apply Z.div_small; lia).
    change (Z.to_nat (0 + 1)) with 1%nat. cbn [kdf_blocks].
    rewrite !app_nil_r. rewrite spec_blocks_done by lia. reflexivity.
  - replace ((n + 7) / 64) with 1.
    2:{ apply Z.div_unique with (r := n + 7 - 64); lia. }
    change (Z.to_nat (1 + 1)) with 2%nat. cbn [kdf_blocks].
    rewrite !app_nil_r.
    destruct f as [|f]; [lia|].
    rewrite spec_blocks_step by lia.
    rewrite spec_blocks_done; [reflexivity|].
    rewrite len_app, L1. unfold len. rewrite sha256_32. lia.
Qed.


End MoreKDF.



(** ** ECDSA: verification against recovery *)

(** X10: [ECCx.verify] accepts only if [ecdsa_recover] gives the raw
    public key of the object from the same signature and message; and it
    accepts whenever recovery gives that key, the key has 64 bytes, and the
    library writes uncompressed keys with the byte 0x04 in front. *)
Theorem verify_agrees_with_recover {SV : Services}
        (self : ECC) (signature message : bytes) :
  (ECCx.verify self signature message = Ok true ->
   ecdsa_recover message signature = Ok (ECCx.raw_pubkey self)) /\
  ((forall pk, from_signature_and_message signature message = Ok pk ->
               exists raw, pk = x04 :: raw) ->
   len (ECCx.raw_pubkey self) = 64 ->
   ecdsa_recover message signature = Ok (ECCx.raw_pubkey self) ->
   ECCx.verify self signature message = Ok true).
Proof.
  unfold ECCx.verify, ecdsa_verify, ecdsa_recover, assert.
  destruct (len signature =? 65); cbn [obind];
    [|split; [discriminate | intros _ _; discriminate]].
  destruct (len (ECCx.raw_pubkey self) =? 64) eqn:E64; cbn [obind].
  - destruct (from_signature_and_message signature message) as [pk | x |];
      cbn [obind]; [|split; [discriminate | intros _ _; discriminate]..].
    split.
    + intros H. apply Ok_inj in H. apply bytes_eqb_eq in H. subst pk.
      rewrite sl_from_skipn by lia. reflexivity.
    + intros Hfmt _ H. apply Ok_inj in H.
      destruct (Hfmt pk eq_refl) as [raw ->].
      rewrite sl_from_skipn in H by lia. change (Z.to_nat 1) with 1%nat in H.
      cbn [skipn] in H. subst raw. cbn [app]. now rewrite bytes_eqb_refl.
  - split; [discriminate|]. intros _ H. apply Z.eqb_neq in E64.
    now destruct E64.
Qed.

(** ** Splitting a public key *)

(** X11: [_decode_pubkey] refuses every string that has not 64 bytes, and
    cuts one of 64 bytes into two halves of 32 bytes that [raw_pubkey] puts
    together again.  It gives back the coordinates of an object only when
    the abscissa has 32 bytes: the total of 64 does not say where the
    abscissa ends. *)
Theorem decode_pubkey_splits (raw : bytes) :
  (len raw <> 64 -> ECCx._decode_pubkey raw = Raise AssertionError) /\
  (len raw = 64 ->
   exists x y, ECCx._decode_pubkey raw = Ok (x, y) /\
               length x = 32%nat /\ length y = 32%nat /\
               ECCx.raw_pubkey (mkECC None x y) = raw) /\
  (forall e, len (ECCx.raw_pubkey e) = 64 ->
             (ECCx._decode_pubkey (ECCx.raw_pubkey e)
              = Ok (pubkey_x e, pubkey_y e)
              <-> length (pubkey_x e) = 32%nat)).
Proof.
  split; [|split].
  3:{ intros e He. unfold ECCx._decode_pubkey, assert.
      apply Z.eqb_eq in He. rewrite He. cbn [obind]. split.
      - intros H. apply Ok_inj in H.
        assert (Hx : sl_to (ECCx.raw_pubkey e) 32 = pubkey_x e) by congruence.
        rewrite <- Hx, sl_to_firstn, length_firstn by lia.
        apply Z.eqb_eq in He. unfold len in He. lia.
      - intros Hx. destruct (pubkey_halves e Hx) as [-> ->]. reflexivity. }
  all: revert raw; intros raw.
  all: unfold ECCx._decode_pubkey, assert;
    destruct (len raw =? 64) eqn:E; cbn [obind].
  - apply Z.eqb_eq in E. intros H; now destruct H.
  - reflexivity.
  - apply Z.eqb_eq in E. intros _.
    do 2 eexists. split; [reflexivity|].
    rewrite sl_to_firstn, sl_from_skipn by lia.
    change (Z.to_nat 32) with 32%nat. unfold len in E.
    rewrite length_firstn, length_skipn.
    split; [lia|]. split; [lia|].
    unfold ECCx.raw_pubkey. cbn [pubkey_x pubkey_y]. apply firstn_skipn.
  - apply Z.eqb_neq in E. intros H; now destruct E.
Qed.

Section GivenKeys.
Context {SV : Services}.

Lemma init_loop_round_given (fuel : nat) (px py ipub ipriv : option bytes)
      (w : World) :
  ECCx.init_loop (S fuel) px py ipub ipriv w
  = let (r, g') := ECC_init px py ipriv (entropy w) in
    let w1 := mkWorld g' (trace w ++ [EvECCInit px py ipriv]) in
    match r with
    | Ok e =>
        if short_privkey e
        then ECCx.init_loop fuel px py ipub ipriv w1
        else
          match verdict e with
          | Ok true => (Ok e, w1)
          | Ok false =>
              if ECCx.truthy ipriv || ECCx.truthy ipub
              then (Raise (Exception "invalid priv or pubkey"), w1)
              else ECCx.init_loop fuel px py ipub ipriv w1
          | Raise x => (Raise x, w1)
          | Spin => (Spin, w1)
          end
    | Raise x => (Raise x, w1)
    | Spin => (Spin, w1)
    end.
Proof.
  cbn [ECCx.init_loop]. unfold bind at 1. unfold ECCx.call_ECC_init at 1.
  unfold bind at 1. unfold tell at 1. cbn [entropy trace].
  destruct (ECC_init px py ipriv (entropy w)) as [r g'].
  destruct r as [e | x |]; try reflexivity.
  unfold short_privkey, verdict, ECCx.raw_privkey.
  set (given := ECCx.truthy ipriv || ECCx.truthy ipub).
  destruct (privkey e) as [[|b k]|] eqn:Ek; cbn [ECCx.truthy andb].
  - unfold bind, except_AssertionError, ret, bind, raise.
    destruct (len (ECCx.raw_pubkey e) =? 64); destruct given; reflexivity.
  - destruct (len (b :: k) =? 32) eqn:E32; cbn [negb]; [|reflexivity].
    unfold bind, except_AssertionError, ret, bind, lift, raise.
    destruct (get_privkey_format (b :: k)) as [[] | [] |]; try reflexivity;
      destruct (len (ECCx.raw_pubkey e) =? 64); destruct given; reflexivity.
  - unfold bind, except_AssertionError, ret, bind, raise.
    destruct (len (ECCx.raw_pubkey e) =? 64); destruct given; reflexivity.
Qed.

(** X12: [ECCx.__init__] with a public key.  With a private key as well
    the first assertion fails; a public key that has not 64 bytes fails the
    second, before the library is called.  With 64 bytes the library is
    called once with the two halves, and the object it builds, which has no
    private key, is returned if its public key has 64 bytes; otherwise the
    constructor raises instead of trying again. *)
Theorem init_with_pubkey (fuel : nat) (pub : bytes) (w : World) :
  pub <> [] ->
  (forall priv, priv <> [] ->
     ECCx.__init__ fuel (Some pub) (Some priv) w
     = (Raise AssertionError, w)) /\
  (len pub <> 64 ->
   ECCx.__init__ fuel (Some pub) None w = (Raise AssertionError, w)) /\
  (len pub = 64 ->
   forall e g',
     ECC_init (Some (sl_to pub 32 : bytes)) (Some (sl_from pub 32 : bytes))
              None (entropy w)
     = (Ok e, g') ->
     privkey e = None ->
     result (ECCx.__init__ (S fuel) (Some pub) None) w
     = if len (ECCx.raw_pubkey e) =? 64 then Ok e
       else Raise (Exception "invalid priv or pubkey")).
Proof.
  intros Hp. destruct pub as [|p0 pub]; [now destruct Hp|]. clear Hp.
  split; [intros [|k0 priv] Hk; [now destruct Hk | reflexivity]|].
  set (P := p0 :: pub).
  unfold ECCx.__init__, bind, ret, ECCx.massert, lift, assert, result.
  change (ECCx.truthy None) with false. cbv beta iota.
  change (ECCx.truthy (Some P)) with true. cbv beta iota.
  destruct (len P =? 64) eqn:E64.
  - apply Z.eqb_eq in E64. split; [intros H; now destruct H|].
    intros _ e g' Hinit Hpriv.
    unfold ECCx._decode_pubkey, assert.
    apply Z.eqb_eq in E64. rewrite E64. cbn [obind]. cbv beta iota zeta.
    cbn [fst snd].
    rewrite init_loop_round_given. cbn [fst snd]. rewrite Hinit. cbv zeta.
    assert (Es : short_privkey e = false).
    { unfold short_privkey, ECCx.raw_privkey. now rewrite Hpriv. }
    assert (Ev : verdict e = Ok (len (ECCx.raw_pubkey e) =? 64)).
    { unfold verdict. now rewrite Hpriv. }
    rewrite Es, Ev.
    destruct (len (ECCx.raw_pubkey e) =? 64) eqn:E; [|reflexivity].
    cbv beta iota. rewrite E. reflexivity.
  - split; [reflexivity|]. intros H. apply Z.eqb_neq in E64. now destruct E64.
Qed.

Lemma truthy_len (x : bytes) (n : Z) :
  len x = n -> 0 < n -> ECCx.truthy (Some x) = true.
Proof. destruct x; [unfold len; cbn; lia | reflexivity]. Qed.

Lemma init_loop_spins (px py ipub ipriv : option bytes) (e : ECC) :
  (forall g, exists g', ECC_init px py ipriv g = (Ok e, g')) ->
  short_privkey e = true ->
  forall (fuel : nat) (w : World),
    fst (ECCx.init_loop fuel px py ipub ipriv w) = Spin.
Proof.
  intros Hlib Hs. induction fuel as [|fuel IH]; intros w; [reflexivity|].
  rewrite init_loop_round_given.
  destruct (Hlib (entropy w)) as [g' ->]. cbv zeta. rewrite Hs. apply IH.
Qed.

Lemma short_privkey_some (e : ECC) (k : bytes) :
  privkey e = Some k -> k <> [] -> short_privkey e = negb (len k =? 32).
Proof.
  intros Hp Hk. unfold short_privkey, ECCx.raw_privkey. rewrite Hp.
  destruct k; [now destruct Hk | reflexivity].
Qed.

(** X13: [ECCx.__init__] with a private key.  The public key comes from
    [privtopub].  When the library keeps the key given and that key has not
    32 bytes, every round ends in [continue] with the same arguments: the
    loop never ends.  With 32 bytes one round decides: the object is
    returned if it passes the checks, and the constructor raises if it does
    not. *)
Theorem init_with_privkey (fuel : nat) (k pub : bytes) (e : ECC) (w : World) :
  k <> [] ->
  bitcoin_privtopub k = Ok pub -> len pub = 64 ->
  (forall g, exists g',
      ECC_init (Some (sl_to pub 32 : bytes)) (Some (sl_from pub 32 : bytes))
               (Some k) g = (Ok e, g')) ->
  privkey e = Some k ->
  (len k <> 32 -> result (ECCx.__init__ fuel None (Some k)) w = Spin) /\
  (len k = 32 ->
   result (ECCx.__init__ (S fuel) None (Some k)) w
   = match verdict e with
     | Ok true => Ok e
     | Ok false => Raise (Exception "invalid priv or pubkey")
     | Raise x => Raise x
     | Spin => Spin
     end).
Proof.
  intros Hk Hpub H64 Hlib Hpriv.
  assert (Tk : ECCx.truthy (Some k) = true) by (now destruct k).
  assert (Tp : ECCx.truthy (Some pub) = true)
    by (apply (truthy_len pub 64); [assumption | lia]).
  assert (E64 : (len pub =? 64) = true) by (now apply Z.eqb_eq).
  assert (Run : forall f,
    result (ECCx.__init__ f None (Some k)) w
    = match ECCx.init_loop f (Some (sl_to pub 32 : bytes))
              (Some (sl_from pub 32 : bytes)) (Some pub) (Some k) w with
      | (Ok self, _) => if len (ECCx.raw_pubkey self) =? 64 then Ok self
                        else Raise AssertionError
      | (Raise x, _) => Raise x
      | (Spin, _) => Spin
      end).
  { intros f.
    unfold ECCx.__init__, bind, ret, ECCx.massert, lift, assert, result,
      privtopub.
    rewrite Tk. cbv beta iota. change (ECCx.truthy None) with false.
    cbv beta iota. rewrite Hpub. cbn [obind negb]. rewrite E64.
    unfold assert. cbn [obind]. cbv beta iota. rewrite Tp. cbv beta iota.
    rewrite E64. cbv beta iota.
    unfold ECCx._decode_pubkey, assert. rewrite E64. cbn [obind].
    cbv beta iota zeta. cbn [fst snd].
    destruct (ECCx.init_loop f _ _ _ _ w) as [[self | x |] w']; trivial.
    destruct (len (ECCx.raw_pubkey self) =? 64); reflexivity. }
  split; intros Hlen.
  - rewrite Run.
    pose proof (init_loop_spins (Some (sl_to pub 32 : bytes))
                  (Some (sl_from pub 32 : bytes)) (Some pub) (Some k) e Hlib)
      as Hspin.
    assert (Hs : short_privkey e = true).
    { rewrite (short_privkey_some e k) by assumption.
      apply Z.eqb_neq in Hlen. now rewrite Hlen. }
    specialize (Hspin Hs fuel w).
    destruct (ECCx.init_loop fuel _ _ _ _ w) as [r w']. cbn [fst] in Hspin.
    now subst r.
  - rewrite Run, init_loop_round_given.
    destruct (Hlib (entropy w)) as [g' ->]. cbv zeta.
    assert (Hs : short_privkey e = false).
    { rewrite (short_privkey_some e k) by assumption.
      apply Z.eqb_eq in Hlen. now rewrite Hlen. }
    rewrite Hs, Tk. cbn [orb].
    destruct (verdict e) as [[|] | x |] eqn:Ev; trivial.
    apply verdict_accept in Ev. destruct Ev as [Ev _].
    apply Z.eqb_eq in Ev. now rewrite Ev.
Qed.

(** X14: [get_ecdh_key] refuses a peer key that has not 64 bytes before
    the library is called.  A key it returns has 32 bytes and is what the
    library gave for the two halves of the peer key, in one call. *)
Theorem get_ecdh_key_checks (self : ECC) (peer : bytes) (w : World) :
  (len peer <> 64 ->
   ECCx.get_ecdh_key self peer w = (Raise AssertionError, w)) /\
  (forall key w', ECCx.get_ecdh_key self peer w = (Ok key, w') ->
     length peer = 64%nat /\ length key = 32%nat /\
     raw_get_ecdh_key self (firstn 32 peer) (skipn 32 peer) = Ok key /\
     trace w' = trace w ++ [EvECDH self (firstn 32 peer) (skipn 32 peer)]).
Proof.
  unfold ECCx.get_ecdh_key, ECCx._decode_pubkey.
  unfold ECCx.call_raw_get_ecdh_key, ECCx.massert.
  unfold bind, lift, tell, ret, assert.
  destruct (len peer =? 64) eqn:E; cbn [obind]; cbv beta iota zeta.
  - apply Z.eqb_eq in E. split; [intros H; now destruct H|].
    cbn [fst snd]. rewrite sl_to_firstn, sl_from_skipn by lia.
    change (Z.to_nat 32) with 32%nat.
    intros key w'.
    destruct (raw_get_ecdh_key self (firstn 32 peer) (skipn 32 peer))
      as [z | x |]; try discriminate.
    destruct (len z =? 32) eqn:Ez; try discriminate.
    intros H. apply ran_ok in H. destruct H as [-> <-].
    apply Z.eqb_eq in Ez. unfold len in *. cbn [trace].
    repeat split; trivial; lia.
  - split; [reflexivity | discriminate].
Qed.

End GivenKeys.

Section Shape.
Context {SV : Services}.

Lemma body_after_key (pub rest : bytes) :
  length pub = 64%nat -> sl_from ([x04] ++ pub ++ rest) (1 + 64) = rest.
Proof.
  intros Hp. rewrite sl_from_skipn by lia.
  change (Z.to_nat (1 + 64)) with 65%nat. rewrite app_assoc.
  apply skipn_app_exact. rewrite length_app, Hp. reflexivity.
Qed.

(** What a run of [ecies_encrypt] that returned has gone through. *)
Lemma encrypt_run_inv (fuel : nat) (data pub smd : bytes)
        (w w' : World) (msg : bytes) :
  ECCx.ecies_encrypt fuel data pub smd w = (Ok msg, w') ->
  exists (ephem : ECC) (z key iv : bytes),
    let ct := ciphering (sl_to key 16) iv 1 data in
    let tag := hmac_sha256 (sha256 (sl_from key 16)) (iv ++ ct ++ smd) in
    msg = [x04] ++ ECCx.raw_pubkey ephem ++ iv ++ ct ++ tag /\
    (exists g g', ECC_init None None None g = (Ok ephem, g')) /\
    raw_get_ecdh_key ephem (sl_to pub 32) (sl_from pub 32) = Ok z /\
    eciesKDF z 32 = Ok key /\
    length (ECCx.raw_pubkey ephem) = 64%nat /\ length z = 32%nat /\
    length iv = 16%nat /\ length ct = length data /\ length tag = 32%nat /\
    length msg = (113 + length data)%nat.
Proof.
  unfold ECCx.ecies_encrypt. unfold bind at 1.
  destruct (ECCx.__init__ fuel None None w) as [[e | x |] w1] eqn:Ei;
    try discriminate.
  destruct (init_ok_valid _ _ _ _ Ei) as [Hv Hg].
  apply verdict_accept in Hv. destruct Hv as [H64 _].
  assert (Lp : length (ECCx.raw_pubkey e) = 64%nat) by (unfold len in H64; lia).
  unfold_M. cbn [entropy trace].
  destruct (gen_IV (entropy w1)) as [iv g2] eqn:Eiv. cbv beta iota.
  repeat run_step.
  intros H. apply ran_ok in H. destruct H as [<- _].
  rewrite body_after_key in * by assumption.
  match goal with
  | Hz : raw_get_ecdh_key e _ _ = Ok ?z, Hk : eciesKDF ?z 32 = Ok ?k |- _ =>
      exists e, z, k, iv
  end.
  cbv zeta.
  repeat match goal with
         | H : (_ =? _) = true |- _ => apply Z.eqb_eq in H
         | H : (_ && _) = true |- _ => apply andb_true_iff in H; destruct H
         end.
  unfold len in *.
  rewrite <- !app_assoc. rewrite <- app_assoc in *.
  repeat split; trivial; try lia.
  rewrite !length_app. cbn [length]. lia.
Qed.

(** X15: the layout of every message [ecies_encrypt] returns: the byte
    0x04, the 64 bytes of the ephemeral public key, 16 bytes of IV, the
    plaintext enciphered under the first half of the derived key, and a tag
    of 32 bytes.  The tag is the MAC, under the hash of the second half of
    the key, of the IV, the ciphertext and [shared_mac_data]: [msg[65:-32]],
    which starts after the ephemeral key. *)
Theorem encrypt_message_shape (fuel : nat) (data pub smd : bytes)
        (w w' : World) (msg : bytes) :
  ECCx.ecies_encrypt fuel data pub smd w = (Ok msg, w') ->
  exists (ephem : ECC) (z key : bytes),
    raw_get_ecdh_key ephem (sl_to pub 32) (sl_from pub 32) = Ok z /\
    eciesKDF z 32 = Ok key /\
    length msg = (113 + length data)%nat /\
    sl_to msg 1 = [x04] /\
    sl msg 1 65 = ECCx.raw_pubkey ephem /\
    length (sl msg 65 81) = 16%nat /\
    sl msg 81 (- 32) = ciphering (sl_to key 16) (sl msg 65 81) 1 data /\
    sl_from msg (- 32)
    = hmac_sha256 (sha256 (sl_from key 16)) (sl msg 65 (- 32) ++ smd).
Proof.
  intros Hrun.
  destruct (encrypt_run_inv _ _ _ _ _ _ _ Hrun)
    as (eph & z & key & iv & Hmsg & _ & Hz & Hk & Lp & _ & Li & Lc & Lt & Lm).
  cbv zeta in Hmsg, Lc, Lt.
  set (ct := ciphering (sl_to key 16) iv 1 data) in *.
  set (tag := hmac_sha256 (sha256 (sl_from key 16)) (iv ++ ct ++ smd)) in *.
  destruct (message_fields (ECCx.raw_pubkey eph) iv ct tag Lp Li Lt)
    as (F1 & F2 & F3 & F4 & F5 & F6 & F7).
  assert (Hm : msg = ([x04] ++ ECCx.raw_pubkey eph ++ iv ++ ct) ++ tag)
    by (rewrite Hmsg; now rewrite <- !app_assoc).
  rewrite <- Hm in F1, F2, F3, F4, F5, F6.
  change (1 + 64) with 65 in F2, F4, F5.
  change (65 + 16) with 81 in F5. change (1 + 64 + 16) with 81 in F6.
  exists eph, z, key. rewrite F1, F2, F3, F4, F5, F6, <- app_assoc.
  repeat split; trivial.
Qed.
End Shape.

Section WellFormed.
Context {SV : Services}.

(** The run of [ecies_decrypt] on a message with the fields in place. *)
Lemma decrypt_fields_run (self : ECC) (pub iv ct tag smd z key : bytes)
      (w : World) :
  length pub = 64%nat -> length iv = 16%nat -> length tag = 32%nat ->
  (forall x, length (sha256 x) = 32%nat) -> get_blocksize = 16 ->
  raw_get_ecdh_key self (firstn 32 pub) (skipn 32 pub) = Ok z ->
  length z = 32%nat -> eciesKDF z 32 = Ok key ->
  let key_mac := sha256 (sl_from key 16) in
  let checks := [EvECDH self (firstn 32 pub) (skipn 32 pub); EvKDF z 32;
                 EvSHA256 (sl_from key 16);
                 EvHMAC key_mac (iv ++ ct ++ smd)] in
  ECCx.ecies_decrypt self ([x04] ++ pub ++ iv ++ ct ++ tag) smd w
  = if bytes_eqb (hmac_sha256 key_mac (iv ++ ct ++ smd)) tag
    then (Ok (ciphering (sl_to key 16) iv 0 ct),
          mkWorld (entropy w)
                  (trace w ++ checks ++ [EvCipher (sl_to key 16) iv 0 ct]))
    else (Raise (ECIESDecryptionError "Fail to verify data"),
          mkWorld (entropy w) (trace w ++ checks)).
Proof.
  intros Lp Li Lt Hsha Hbs Hz Lz Hk. cbv zeta.
  destruct (message_fields pub iv ct tag Lp Li Lt)
    as (F1 & F2 & F3 & F4 & F5 & F6 & F7).
  replace ([x04] ++ pub ++ iv ++ ct ++ tag)
    with (([x04] ++ pub ++ iv ++ ct) ++ tag) by (now rewrite <- !app_assoc).
  set (msg := ([x04] ++ pub ++ iv ++ ct) ++ tag) in *.
  assert (E1 : negb (bytes_eqb (sl_to msg 1) [x04]) = false).
  { rewrite F1, bytes_eqb_refl. reflexivity. }
  assert (Hx : sl_to pub 32 = firstn 32 pub) by (now rewrite sl_to_firstn).
  assert (Hy : sl_from pub 32 = skipn 32 pub) by (now rewrite sl_from_skipn).
  assert (E2 : (len z =? 32) = true) by (apply Z.eqb_eq; unfold len; lia).
  assert (E3 : (len key =? 32) = true).
  { destruct (eciesKDF_first_block Hsha z 32 ltac:(lia)) as [Ek Lk].
    rewrite Ek in Hk. apply Ok_inj in Hk. subst key. now apply Z.eqb_eq. }
  assert (E4 : (len (sha256 (sl_from key 16)) =? 32) = true).
  { unfold len. rewrite Hsha. reflexivity. }
  assert (E5 : (len tag =? 32) = true) by (apply Z.eqb_eq; unfold len; lia).
  assert (E7 : (len iv =? 16) = true) by (apply Z.eqb_eq; unfold len; lia).
  assert (E8 : (1 + len pub + len iv + len ct + len tag =? len msg) = true).
  { unfold len. rewrite F7, Lp, Li, Lt. apply Z.eqb_eq; lia. }
  unfold ECCx.ecies_decrypt. known E1. unfold_M.
  rewrite !F2, Hx, Hy. known Hz. known E2. known Hk. known E3. known E4.
  rewrite !F3, !F4. known E5. unfold equals. rewrite <- app_assoc.
  destruct (bytes_eqb _ tag); cbn [negb]; cbv beta iota.
  - rewrite Hbs, F5, F6. known E7. known E8. cbn [entropy trace].
    rewrite <- !app_assoc. reflexivity.
  - cbn [entropy trace]. rewrite <- !app_assoc. reflexivity.
Qed.

(** X16: what [ecies_decrypt] does with any message of the layout 0x04,
    key of 64 bytes, IV of 16 bytes, ciphertext, tag of 32 bytes, once the
    key agreement has given a secret.  If the MAC of IV, ciphertext and
    [shared_mac_data] is the tag, the ciphertext deciphered under the first
    half of the key is returned; if not, the error is raised; and the cipher
    is called in the first case only. *)
Theorem decrypt_well_formed (self : ECC) (pub iv ct tag smd z key : bytes)
        (w : World) :
  length pub = 64%nat -> length iv = 16%nat -> length tag = 32%nat ->
  (forall x, length (sha256 x) = 32%nat) -> get_blocksize = 16 ->
  raw_get_ecdh_key self (firstn 32 pub) (skipn 32 pub) = Ok z ->
  length z = 32%nat -> eciesKDF z 32 = Ok key ->
  let data := [x04] ++ pub ++ iv ++ ct ++ tag in
  let mac := hmac_sha256 (sha256 (sl_from key 16)) (iv ++ ct ++ smd) in
  (mac = tag ->
   result (ECCx.ecies_decrypt self data smd) w
   = Ok (ciphering (sl_to key 16) iv 0 ct)) /\
  (mac <> tag ->
   result (ECCx.ecies_decrypt self data smd) w
   = Raise (ECIESDecryptionError "Fail to verify data")) /\
  (Exists (fun e => is_cipher e = true)
          (events (ECCx.ecies_decrypt self data smd) w) <-> mac = tag).
Proof.
  intros Lp Li Lt Hsha Hbs Hz Lz Hk. cbv zeta.
  pose proof (decrypt_fields_run self pub iv ct tag smd z key w
                Lp Li Lt Hsha Hbs Hz Lz Hk) as Run.
  cbv zeta in Run. unfold result, events. rewrite Run.
  destruct (bytes_eqb _ tag) eqn:E; cbn [fst snd trace].
  - apply bytes_eqb_eq in E. split; [reflexivity|].
    split; [intros H; now destruct H|].
    rewrite skipn_app_exact by reflexivity. split; [trivial|]. intros _.
    cbn [app]. do 4 apply Exists_cons_tl. now apply Exists_cons_hd.
  - apply bytes_eqb_neq in E. split; [intros H; now destruct E|].
    split; [reflexivity|].
    rewrite skipn_app_exact by reflexivity. split; [|intros H; now destruct E].
    intros H. exfalso.
    repeat (apply Exists_cons in H; destruct H as [H | H];
            [discriminate H|]).
    inversion H.
Qed.

(** X17: the MAC does not cover the ephemeral public key.  Two messages
    that differ only in that field, with fields that give the same shared
    secret, have the same outcome: both are refused, or both are accepted
    with the same plaintext. *)
Theorem mac_leaves_out_ephemeral_key
        (self : ECC) (pub pub' iv ct tag smd z : bytes) (w w' : World) :
  length pub = 64%nat -> length pub' = 64%nat ->
  length iv = 16%nat -> length tag = 32%nat ->
  (forall x, length (sha256 x) = 32%nat) -> get_blocksize = 16 ->
  raw_get_ecdh_key self (firstn 32 pub) (skipn 32 pub) = Ok z ->
  raw_get_ecdh_key self (firstn 32 pub') (skipn 32 pub') = Ok z ->
  length z = 32%nat ->
  result (ECCx.ecies_decrypt self ([x04] ++ pub ++ iv ++ ct ++ tag) smd) w
  = result (ECCx.ecies_decrypt self ([x04] ++ pub' ++ iv ++ ct ++ tag) smd)
           w'.
Proof.
  intros Lp Lp' Li Lt Hsha Hbs Hz Hz' Lz.
  destruct (eciesKDF_first_block Hsha z 32 ltac:(lia)) as [Hk _].
  unfold result.
  rewrite (decrypt_fields_run self pub iv ct tag smd z _ w
             Lp Li Lt Hsha Hbs Hz Lz Hk).
  rewrite (decrypt_fields_run self pub' iv ct tag smd z _ w'
             Lp' Li Lt Hsha Hbs Hz' Lz Hk).
  destruct (bytes_eqb _ tag); reflexivity.
Qed.

(** X18: [ecies_decrypt] never draws from the random source and never
    builds a key: whatever the message and however the run ends, the world
    afterwards has the same entropy, and at most five calls have been added
    to the trace, none of them a key generation or an IV. *)
Theorem decrypt_keeps_entropy (self : ECC) (data smd : bytes) (w : World) :
  exists evs,
    snd (ECCx.ecies_decrypt self data smd w)
    = mkWorld (entropy w) (trace w ++ evs) /\
    (length evs <= 5)%nat /\
    Forall (fun e => match e with
                     | EvECCInit _ _ _ | EvGenIV => False
                     | _ => True
                     end) evs.
Proof.
  unfold ECCx.ecies_decrypt.
  destruct (negb (bytes_eqb (sl_to data 1) [x04])).
  { exists []. rewrite app_nil_r. destruct w. repeat split; trivial.
    cbn; lia. }
  unfold_M.
  repeat match goal with
         | |- context [match ?x with
                       | Ok _ => _ | Raise _ => _ | Spin => _ end] =>
             destruct x eqn:?
         | |- context [if ?b then _ else _] => destruct b eqn:?
         end;
    cbn [snd trace entropy]; rewrite <- ?app_assoc; cbn [app];
    eexists; (split; [reflexivity|]); (split; [cbn [length]; lia|]);
    repeat constructor.
Qed.

End WellFormed.

Section WithLaws.
Context {SV : Services} {L : Laws}.

(** Under the laws [ecies_encrypt] returns once the ephemeral key is
    there. *)
Lemma encrypt_returns (fuel : nat) (p smd : bytes) (K e : ECC) (w w1 : World) :
  valid_keypair K ->
  ECCx.__init__ fuel None None w = (Ok e, w1) ->
  exists msg w2,
    ECCx.ecies_encrypt fuel p (ECCx.raw_pubkey K) smd w = (Ok msg, w2).
Proof.
  intros (CK & PK & XK & YK) Hinit.
  destruct (init_fresh_ok _ _ _ _ Hinit) as (Ce & Pe & Xe & Ye).
  destruct (ecdh_agreement e K Ce CK Pe PK Xe Ye XK YK) as (z & Lz & Ze & ZK).
  destruct (pubkey_halves K XK) as [HKx HKy].
  destruct (eciesKDF_first_block sha256_size z 32 ltac:(lia)) as [Ekdf Lkey].
  change (Z.to_nat 32) with 32%nat in *.
  set (key := firstn 32 (sha256 (be32 1 ++ z ++ []))) in *.
  set (key_enc := sl_to key 16). set (key_mac := sha256 (sl_from key 16)).
  destruct (gen_IV (entropy w1)) as [iv g2] eqn:Eiv.
  assert (Liv : length iv = 16%nat).
  { pose proof (gen_IV_size (entropy w1)) as H. now rewrite Eiv in H. }
  set (ct := ciphering key_enc iv 1 p).
  assert (Lct : length ct = length p) by apply ciphering_size.
  set (msg0 := [x04] ++ ECCx.raw_pubkey e ++ iv ++ ct).
  set (tag := hmac_sha256 key_mac (sl_from msg0 (1 + 64) ++ smd)).
  assert (Ltag : length tag = 32%nat) by apply hmac_sha256_size.
  assert (Lpub : length (ECCx.raw_pubkey e) = 64%nat).
  { unfold ECCx.raw_pubkey. rewrite length_app. lia. }
  assert (Lmsg : length (msg0 ++ tag) = (113 + length p)%nat).
  { unfold msg0. rewrite !length_app, Lpub, Liv, Lct, Ltag. cbn [length]. lia. }
  assert (E2 : (len z =? 32) = true) by (apply Z.eqb_eq; unfold len; lia).
  assert (E3 : (len key =? 32) = true) by (now apply Z.eqb_eq).
  assert (E4 : (len key_mac =? 32) = true).
  { unfold len, key_mac. rewrite sha256_size. reflexivity. }
  assert (E5 : (len iv =? 16) = true) by (apply Z.eqb_eq; unfold len; lia).
  assert (E6 : (len ct =? len p) = true) by (apply Z.eqb_eq; unfold len; lia).
  assert (E7 : (len tag =? 32) = true) by (apply Z.eqb_eq; unfold len; lia).
  assert (E8 : ((len (msg0 ++ tag) =? 1 + 64 + 16 + 32 + len p)
                && (1 + 64 + 16 + 32 + len p =? 113 + len p)) = true).
  { unfold len. rewrite Lmsg. apply andb_true_iff.
    split; apply Z.eqb_eq; lia. }
  assert (E9 : (len (msg0 ++ tag) - ECCx.ecies_encrypt_overhead_length
                =? len p) = true).
  { unfold len, ECCx.ecies_encrypt_overhead_length. rewrite Lmsg.
    apply Z.eqb_eq; lia. }
  exists (msg0 ++ tag). eexists.
  unfold ECCx.ecies_encrypt. unfold bind at 1. known Hinit.
  unfold_M. rewrite HKx, HKy. known Ze. known E2. known Ekdf. known E3.
  fold key_enc key_mac. known E4. cbn [entropy trace]. known Eiv.
  known E5. fold ct. known E6. fold msg0. fold tag. known E7. known E8.
  known E9. reflexivity.
Qed.

Lemma ephemeral_agreement (K e : ECC) (z : bytes) :
  valid_keypair K ->
  (exists g g', ECC_init None None None g = (Ok e, g')) ->
  length (ECCx.raw_pubkey e) = 64%nat ->
  raw_get_ecdh_key e (sl_to (ECCx.raw_pubkey K) 32)
                   (sl_from (ECCx.raw_pubkey K) 32) = Ok z ->
  raw_get_ecdh_key K (firstn 32 (ECCx.raw_pubkey e))
                   (skipn 32 (ECCx.raw_pubkey e)) = Ok z.
Proof.
  intros (CK & PK & XK & YK) (g & g' & Eg) L64 Hz.
  assert (Ce : constructed e) by (now exists None, None, None, g, g').
  pose proof (generated_privkey _ _ _ Eg) as Pe.
  destruct (coordinate_size _ _ _ Eg) as [Hx Hy].
  unfold ECCx.raw_pubkey in L64. rewrite length_app in L64.
  assert (Xe : length (pubkey_x e) = 32%nat) by lia.
  assert (Ye : length (pubkey_y e) = 32%nat) by lia.
  destruct (ecdh_agreement e K Ce CK Pe PK Xe Ye XK YK) as (z' & _ & Ze & ZK).
  destruct (pubkey_halves K XK) as [HKx HKy]. rewrite HKx, HKy in Hz.
  assert (z' = z) by congruence. subst z'.
  unfold ECCx.raw_pubkey.
  now rewrite firstn_app_exact, skipn_app_exact.
Qed.

(** X19: the round trip with [shared_mac_data].  Under the laws of the
    services, a message encrypted to a valid key pair with any
    [shared_mac_data] is decrypted to the plaintext when the same
    [shared_mac_data] is given; and the same message with any other tag of
    32 bytes in place of its tag is refused. *)
Theorem ecies_roundtrip_shared_mac_data
        (n fuel : nat) (p smd : bytes) (K e : ECC) (w : World) :
  valid_keypair K ->
  accepted_after n (entropy w) e -> (n < fuel)%nat ->
  exists msg w2,
    ECCx.ecies_encrypt fuel p (ECCx.raw_pubkey K) smd w = (Ok msg, w2) /\
    (forall w3, result (ECCx.ecies_decrypt K msg smd) w3 = Ok p) /\
    (forall tag' w3,
        length tag' = 32%nat -> tag' <> sl_from msg (- 32) ->
        result (ECCx.ecies_decrypt K (sl_to msg (- 32) ++ tag') smd) w3
        = Raise (ECIESDecryptionError "Fail to verify data")).
Proof.
  intros HK Ha Hf.
  pose proof (init_accepted n fuel w e Ha Hf) as Hinit.
  unfold result in Hinit.
  destruct (ECCx.__init__ fuel None None w) as [r w1] eqn:Ei.
  cbn [fst] in Hinit. subst r.
  destruct (encrypt_returns fuel p smd K e w w1 HK Ei) as (msg & w2 & Hrun).
  exists msg, w2. split; [exact Hrun|].
  destruct (encrypt_run_inv _ _ _ _ _ _ _ Hrun)
    as (eph & z & key & iv & Hmsg & Hgen & Hz & Hk & Lp & Lz & Li & Lc & Lt
        & Lm).
  cbv zeta in Hmsg, Lc, Lt.
  set (ct := ciphering (sl_to key 16) iv 1 p) in *.
  set (tag := hmac_sha256 (sha256 (sl_from key 16)) (iv ++ ct ++ smd)) in *.
  pose proof (ephemeral_agreement K eph z HK Hgen Lp Hz) as HzK.
  split.
  - intros w3. subst msg. unfold result.
    rewrite (decrypt_fields_run K _ iv ct tag smd z key w3 Lp Li Lt
               sha256_size get_blocksize_16 HzK Lz Hk).
    fold tag. rewrite bytes_eqb_refl. cbn [fst]. f_equal.
    apply ciphering_inverse.
  - intros tag' w3 Lt' Hne.
    destruct (message_fields (ECCx.raw_pubkey eph) iv ct tag Lp Li Lt)
      as (_ & _ & F3 & _ & _ & _ & F7).
    assert (Hm : msg = ([x04] ++ ECCx.raw_pubkey eph ++ iv ++ ct) ++ tag)
      by (rewrite Hmsg; now rewrite <- !app_assoc).
    rewrite Hm in Hne. rewrite F3 in Hne.
    assert (Hcut : sl_to msg (- 32) = [x04] ++ ECCx.raw_pubkey eph ++ iv ++ ct).
    { unfold sl_to, slice. unfold clamp. cbn [Z.ltb Z.compare].
      rewrite skipn_O, Z.sub_0_r.
      rewrite Hm. unfold len. rewrite F7.
      replace (Z.to_nat (Z.max 0 (Z.of_nat (113 + length ct) + -32)))
        with (81 + length ct)%nat by lia.
      apply firstn_app_exact.
      rewrite !length_app, Lp, Li. reflexivity. }
    rewrite Hcut, <- !app_assoc. unfold result.
    rewrite (decrypt_fields_run K _ iv ct tag' smd z key w3 Lp Li Lt'
               sha256_size get_blocksize_16 HzK Lz Hk).
    fold tag.
    assert (E : bytes_eqb tag tag' = false)
      by (apply bytes_eqb_neq; congruence).
    now rewrite E.
Qed.

(** X20: the module-level [encrypt] refuses a key that has not 64 bytes
    before any key is generated, and otherwise is [ecies_encrypt] with empty
    [shared_mac_data]: its message has 113 bytes more than the plaintext,
    and the owner of the key decrypts it to the plaintext. *)
Theorem encrypt_checks_then_encrypts
        (n fuel : nat) (p pub : bytes) (K e : ECC) (w : World) :
  (len pub <> 64 -> encrypt fuel p pub w = (Raise AssertionError, w)) /\
  (valid_keypair K ->
   accepted_after n (entropy w) e -> (n < fuel)%nat ->
   exists msg w2,
     encrypt fuel p (ECCx.raw_pubkey K) w = (Ok msg, w2) /\
     length msg = (113 + length p)%nat /\
     forall w3, result (ECCx.ecies_decrypt K msg []) w3 = Ok p).
Proof.
  split.
  - intros H. unfold encrypt, bind, ECCx.massert, lift, assert.
    apply Z.eqb_neq in H. now rewrite H.
  - intros HK Ha Hf.
    pose proof (init_accepted n fuel w e Ha Hf) as Hinit.
    unfold result in Hinit.
    destruct (ECCx.__init__ fuel None None w) as [r w1] eqn:Ei.
    cbn [fst] in Hinit. subst r.
    destruct (ecies_roundtrip_run fuel p K e w w1 HK Ei)
      as (msg & w2 & Hrun & Hlen & Hdec).
    exists msg, w2. split; [|split; assumption].
    destruct HK as (_ & _ & XK & YK).
    unfold encrypt, bind, ECCx.massert, lift, assert.
    assert (E : (len (ECCx.raw_pubkey K) =? 64) = true).
    { apply Z.eqb_eq. unfold len, ECCx.raw_pubkey. rewrite length_app. lia. }
    rewrite E. exact Hrun.
Qed.

End WithLaws.

(** ** Runs on the small instance *)


Lemma decode_sig_by_length_witness :
  _decode_sig (repeat x00 64) = Raise IndexError.
Proof.
  apply (proj1 (decode_sig_by_length (repeat x00 64))). apply le_n.
Defined.


Lemma eciesKDF_output_length_witness :
  exists key,
    @eciesKDF Toy.services [x01] 33 = Ok key /\
    len key = Z.min 33 (32 * ((33 + 7) / 64 + 1)) /\
    (len key = 33 <-> 33 <= 32 \/ 57 <= 33 <= 64).
Proof.
  apply (@eciesKDF_output_length Toy.services toy_sha256_size [x01] 33).
  split; [discriminate | reflexivity].
Defined.

Lemma eciesKDF_prefix_stable_witness :
  exists kn km,
    @eciesKDF Toy.services [x01] 64 = Ok kn /\
    @eciesKDF Toy.services [x01] 20 = Ok km /\
    sl_to kn 20 = km.
Proof.
  apply (@eciesKDF_prefix_stable Toy.services toy_sha256_size [x01] 20 64).
  - split; discriminate.
  - reflexivity.
  - left; discriminate.
Defined.

Lemma eciesKDF_agrees_with_spec_witness :
  @eciesKDF Toy.services [x01] 32 = Ok (@spec_kdf Toy.services [x01] 32).
Proof.
  apply (@eciesKDF_agrees_with_spec Toy.services toy_sha256_size [x01] 32).
  left; split; discriminate.
Defined.



Lemma verify_agrees_with_recover_witness :
  @ecdsa_recover Toy.services (repeat x00 32) (repeat x00 65)
  = Ok (ECCx.raw_pubkey (mkECC None (repeat x00 32) (repeat x00 32))).
Proof.
  apply (proj1 (@verify_agrees_with_recover Toy.services
                  (mkECC None (repeat x00 32) (repeat x00 32))
                  (repeat x00 65) (repeat x00 32))).
  vm_compute. reflexivity.
Defined.

Lemma decode_pubkey_splits_witness :
  exists x y,
    ECCx._decode_pubkey (repeat x01 64) = Ok (x, y) /\
    length x = 32%nat /\ length y = 32%nat /\
    ECCx.raw_pubkey (mkECC None x y) = repeat x01 64.
Proof.
  apply (proj1 (proj2 (decode_pubkey_splits (repeat x01 64)))).
  reflexivity.
Defined.

Lemma init_with_privkey_witness :
  result (@ECCx.__init__ Toy.services 7 None (Some [x05]))
         (Toy.world Toy.fair) = Spin.
Proof.
  refine (proj1 (@init_with_privkey Toy.services 7 [x05]
                   (lzpad32 (fst (Toy.pub_of 5))
                    ++ lzpad32 (snd (Toy.pub_of 5)))
                   (mkECC (Some [x05])
                      (sl_to (lzpad32 (fst (Toy.pub_of 5))
                              ++ lzpad32 (snd (Toy.pub_of 5))) 32)
                      (sl_from (lzpad32 (fst (Toy.pub_of 5))
                                ++ lzpad32 (snd (Toy.pub_of 5))) 32))
                   (Toy.world Toy.fair) _ _ _ _ _) _).
  - discriminate.
  - reflexivity.
  - vm_compute. reflexivity.
  - intros g. exists g. reflexivity.
  - reflexivity.
  - intros H. vm_compute in H. discriminate H.
Defined.

Lemma init_with_pubkey_witness :
  result (@ECCx.__init__ Toy.services 1
            (Some (ECCx.raw_pubkey Toy.recipient)) None)
         (Toy.world Toy.fair)
  = if len (ECCx.raw_pubkey
              (mkECC None (sl_to (ECCx.raw_pubkey Toy.recipient) 32)
                     (sl_from (ECCx.raw_pubkey Toy.recipient) 32))) =? 64
    then Ok (mkECC None (sl_to (ECCx.raw_pubkey Toy.recipient) 32)
                   (sl_from (ECCx.raw_pubkey Toy.recipient) 32))
    else Raise (Exception "invalid priv or pubkey").
Proof.
  refine (proj2 (proj2 (@init_with_pubkey Toy.services 0
                          (ECCx.raw_pubkey Toy.recipient)
                          (Toy.world Toy.fair) _))
                _ (mkECC None (sl_to (ECCx.raw_pubkey Toy.recipient) 32)
                         (sl_from (ECCx.raw_pubkey Toy.recipient) 32))
                Toy.fair _ _).
  - intros H. vm_compute in H. discriminate H.
  - vm_compute. reflexivity.
  - reflexivity.
  - reflexivity.
Defined.

Lemma get_ecdh_key_checks_witness :
  @ECCx.get_ecdh_key Toy.services Toy.recipient [x01] (Toy.world Toy.fair)
  = (Raise AssertionError, Toy.world Toy.fair).
Proof.
  apply (proj1 (@get_ecdh_key_checks Toy.services Toy.recipient [x01]
                  (Toy.world Toy.fair))).
  discriminate.
Defined.

Lemma encrypt_message_shape_witness :
  exists (ephem : ECC) (z key : bytes),
    @raw_get_ecdh_key Toy.services ephem
      (sl_to (ECCx.raw_pubkey Toy.recipient) 32)
      (sl_from (ECCx.raw_pubkey Toy.recipient) 32) = Ok z /\
    @eciesKDF Toy.services z 32 = Ok key /\
    length Toy.sample_message = (113 + length Toy.hello)%nat /\
    sl_to Toy.sample_message 1 = [x04] /\
    sl Toy.sample_message 1 65 = ECCx.raw_pubkey ephem /\
    length (sl Toy.sample_message 65 81) = 16%nat /\
    sl Toy.sample_message 81 (- 32)
    = @ciphering Toy.services (sl_to key 16) (sl Toy.sample_message 65 81) 1
        Toy.hello /\
    sl_from Toy.sample_message (- 32)
    = @hmac_sha256 Toy.services (@sha256 Toy.services (sl_from key 16))
        (sl Toy.sample_message 65 (- 32) ++ []).
Proof.
  apply (@encrypt_message_shape Toy.services 1 Toy.hello
           (ECCx.raw_pubkey Toy.recipient) [] (Toy.world Toy.fair)
           (snd (@ECCx.ecies_encrypt Toy.services 1 Toy.hello
                   (ECCx.raw_pubkey Toy.recipient) [] (Toy.world Toy.fair)))).
  apply ran_with. vm_compute. reflexivity.
Defined.

Lemma ecies_roundtrip_shared_mac_data_witness :
  exists msg w2,
    @ECCx.ecies_encrypt Toy.services 1 Toy.hello
      (ECCx.raw_pubkey Toy.recipient) [x01; x02] (Toy.world Toy.fair)
    = (Ok msg, w2) /\
    (forall w3,
        result (@ECCx.ecies_decrypt Toy.services Toy.recipient msg [x01; x02])
               w3 = Ok Toy.hello) /\
    (forall tag' w3,
        length tag' = 32%nat -> tag' <> sl_from msg (- 32) ->
        result (@ECCx.ecies_decrypt Toy.services Toy.recipient
                  (sl_to msg (- 32) ++ tag') [x01; x02]) w3
        = Raise (ECIESDecryptionError "Fail to verify data")).
Proof.
  eapply (@ecies_roundtrip_shared_mac_data Toy.services toy_laws 0 1
            Toy.hello [x01; x02] Toy.recipient _ (Toy.world Toy.fair)).
  - exact toy_recipient_valid.
  - cbn [accepted_after]. eexists. split; [reflexivity|].
    vm_compute. reflexivity.
  - apply le_n.
Defined.

Lemma encrypt_checks_then_encrypts_witness :
  exists msg w2,
    @encrypt Toy.services 1 Toy.hello (ECCx.raw_pubkey Toy.recipient)
      (Toy.world Toy.fair) = (Ok msg, w2) /\
    length msg = (113 + length Toy.hello)%nat /\
    forall w3,
      result (@ECCx.ecies_decrypt Toy.services Toy.recipient msg []) w3
      = Ok Toy.hello.
Proof.
  eapply (proj2 (@encrypt_checks_then_encrypts Toy.services toy_laws 0 1
                   Toy.hello [] Toy.recipient _ (Toy.world Toy.fair))).
  - exact toy_recipient_valid.
  - cbn [accepted_after]. eexists. split; [reflexivity|].
    vm_compute. reflexivity.
  - apply le_n.
Defined.

Lemma decrypt_well_formed_witness :
  result (@ECCx.ecies_decrypt Toy.services Toy.recipient
            ([x04] ++ firstn 64 (skipn 1 Toy.sample_message)
                   ++ firstn 16 (skipn 65 Toy.sample_message)
                   ++ firstn 5 (skipn 81 Toy.sample_message)
                   ++ skipn 86 Toy.sample_message) [])
         (Toy.world Toy.fair)
  = Ok Toy.hello.
Proof.
  eapply eq_trans.
  - refine (proj1 (@decrypt_well_formed Toy.services Toy.recipient
                     (firstn 64 (skipn 1 Toy.sample_message))
                     (firstn 16 (skipn 65 Toy.sample_message))
                     (firstn 5 (skipn 81 Toy.sample_message))
                     (skipn 86 Toy.sample_message) [] _ _
                     (Toy.world Toy.fair) _ _ _ _ _ _ _ _) _).
    + reflexivity.
    + reflexivity.
    + reflexivity.
    + exact toy_sha256_size.
    + reflexivity.
    + vm_compute. reflexivity.
    + reflexivity.
    + vm_compute. reflexivity.
    + vm_compute. reflexivity.
  - vm_compute. reflexivity.
Defined.

Lemma mac_leaves_out_ephemeral_key_witness :
  result (@ECCx.ecies_decrypt Toy.services Toy.recipient
            ([x04] ++ firstn 64 (skipn 1 Toy.sample_message)
                   ++ firstn 16 (skipn 65 Toy.sample_message)
                   ++ firstn 5 (skipn 81 Toy.sample_message)
                   ++ skipn 86 Toy.sample_message) [])
         (Toy.world Toy.fair)
  = result (@ECCx.ecies_decrypt Toy.services Toy.recipient
              ([x04] ++ (firstn 32 (skipn 1 Toy.sample_message)
                           ++ repeat x00 32)
                     ++ firstn 16 (skipn 65 Toy.sample_message)
                     ++ firstn 5 (skipn 81 Toy.sample_message)
                     ++ skipn 86 Toy.sample_message) [])
           (Toy.world Toy.fair).
Proof.
  refine (@mac_leaves_out_ephemeral_key Toy.services Toy.recipient
            (firstn 64 (skipn 1 Toy.sample_message))
            (firstn 32 (skipn 1 Toy.sample_message) ++ repeat x00 32)
            (firstn 16 (skipn 65 Toy.sample_message))
            (firstn 5 (skipn 81 Toy.sample_message))
            (skipn 86 Toy.sample_message) [] _
            (Toy.world Toy.fair) (Toy.world Toy.fair) _ _ _ _ _ _ _ _ _).
  - reflexivity.
  - reflexivity.
  - reflexivity.
  - reflexivity.
  - exact toy_sha256_size.
  - reflexivity.
  - vm_compute. reflexivity.
  - vm_compute. reflexivity.
  - reflexivity.
Defined.
